(** * unredact: redaction detection and text metrics

    A shallow embedding of the algorithmic core of the [unredact] package
    ([pdf_info.py], [widths.py], [pdf_redactions.py]) together with the
    properties its specification states about it, followed by the code
    around it ([pdf_test_data.py], [cache.py], [api.py]) and further
    properties of both.

    Conventions of the embedding:
    - Python [int] is [Z]; Python [float] is idealised as an exact rational
      [Q] (no NaN, no infinities, no rounding error);
    - Python [str] is [string]; case mapping and whitespace are the ASCII
      ones;
    - a raising call returns [Raise e], a returning one [Return v];
    - the document engine (PyMuPDF) and the shaping engine (HarfBuzz) are
      collaborators: what they report is data of the model (pages,
      annotations, rasters, text runs, glyph positions);
    - so are [urllib], [httpx] and the storage client: parsing is a
      function of the model, an HTTP GET and a storage call end as the
      model's services say, and stored objects and sent requests are
      explicit state. *)

From Stdlib Require Import ZArith QArith Qround Lia List String Ascii Bool.
From Stdlib Require Import DecimalString.
From stdpp Require Import base option list gmap strings.

Local Open Scope Z_scope.

(** ** Python values and built-ins *)

Module Py.

(** The exceptions the modelled code can propagate. *)
Inductive exn : Type :=
| FileNotFoundError (msg : string)
| KeyError
| ZeroDivisionError
| IndexError
| ValueError (msg : string)
| RuntimeError (msg : string).

Inductive result (A : Type) : Type :=
| Return (v : A)
| Raise (e : exn).
Arguments Return {A} v.
Arguments Raise {A} e.

Definition rbind {A B} (r : result A) (k : A -> result B) : result B :=
  match r with
  | Return v => k v
  | Raise e => Raise e
  end.

Definition is_return {A} (r : result A) : bool :=
  match r with Return _ => true | Raise _ => false end.

(** [c.lower()] for one character. *)
Definition lower_ascii (c : ascii) : ascii :=
  let n := N_of_ascii c in
  if ((65 <=? n) && (n <=? 90))%N then ascii_of_N (n + 32) else c.

(** [s.lower()] *)
Fixpoint str_lower (s : string) : string :=
  match s with
  | EmptyString => EmptyString
  | String c s' => String (lower_ascii c) (str_lower s')
  end.

(** [s.startswith(p)] *)
Fixpoint starts_with (p s : string) : bool :=
  match p, s with
  | EmptyString, _ => true
  | String a p', String b s' => Ascii.eqb a b && starts_with p' s'
  | String _ _, EmptyString => false
  end.

(** [sub in s] *)
Fixpoint str_contains (sub s : string) : bool :=
  starts_with sub s ||
  match s with
  | EmptyString => false
  | String _ s' => str_contains sub s'
  end.

(** What [sub in s] decides: [sub] occurs as a contiguous piece of [s]. *)
Definition Substring (sub s : string) : Prop :=
  exists pre post : string, s = (pre ++ sub ++ post)%string.

End Py.

Import Py.

#[global] Instance result_ret : MRet result := @Return.
#[global] Instance result_bind : MBind result := fun A B k r => rbind r k.

(** ** widths.py: the closed set of font families *)

Inductive FontT : Type :=
| Arial
| Calibri
| Cambria
| CourierNew
| Helvetica
| TimesNewRoman.

(** The string each [FontT] literal stands for. *)
Definition FontT_name (f : FontT) : string :=
  match f with
  | Arial => "arial"
  | Calibri => "calibri"
  | Cambria => "cambria"
  | CourierNew => "courier new"
  | Helvetica => "helvetica"
  | TimesNewRoman => "times new roman"
  end.

#[global] Instance FontT_eq_dec : EqDecision FontT.
Proof. solve_decision. Defined.

Definition FontT_code (f : FontT) : nat :=
  match f with
  | Arial => 0 | Calibri => 1 | Cambria => 2
  | CourierNew => 3 | Helvetica => 4 | TimesNewRoman => 5
  end%nat.

Definition FontT_of_code (n : nat) : option FontT :=
  match n with
  | 0 => Some Arial | 1 => Some Calibri | 2 => Some Cambria
  | 3 => Some CourierNew | 4 => Some Helvetica | 5 => Some TimesNewRoman
  | _ => None
  end%nat.

#[global] Instance FontT_countable : Countable FontT.
Proof.
  apply (inj_countable FontT_code FontT_of_code).
  intros []; reflexivity.
Defined.

(** ** pdf_info.py: the font resolver *)

Module PdfInfo.

Definition _FONT_NAME_MAP : list (string * FontT) :=
  [ ("liberation sans", Arial);
    ("liberation mono", CourierNew);
    ("liberation serif", TimesNewRoman);
    ("arial", Arial);
    ("arimo", Arial);
    ("helvetica", Helvetica);
    ("calibri", Calibri);
    ("carlito", Calibri);
    ("cambria", Cambria);
    ("caladea", Cambria);
    ("courier", CourierNew);
    ("cousine", CourierNew);
    ("times", TimesNewRoman);
    ("tinos", TimesNewRoman) ]%string.

(** The [for substring, font_t in ...] loop with its early [return]. *)
Fixpoint match_rules (rules : list (string * FontT)) (lower : string)
  : option FontT :=
  match rules with
  | [] => None
  | (substring, font_t) :: rest =>
      if str_contains substring lower then Some font_t
      else match_rules rest lower
  end.

Definition _match_font (pdf_font_name : string) : option FontT :=
  let lower := str_lower pdf_font_name in
  match_rules _FONT_NAME_MAP lower.

End PdfInfo.

(** ** The document engine, as this package drives it *)

Module Fitz.

Definition bytes : Type := list Byte.byte.

(** [fitz.Rect]; [width] and [height] are never negative. *)
Record Rect : Type := mkRect { x0 : Q; y0 : Q; x1 : Q; y1 : Q }.

(** [max(0, d)] *)
Definition clamp0 (d : Q) : Q := if Qle_bool 0 d then d else 0%Q.

Definition Rect_width (r : Rect) : Q := clamp0 (x1 r - x0 r).
Definition Rect_height (r : Rect) : Q := clamp0 (y1 r - y0 r).

Definition PDF_ANNOT_REDACT : Z := 12.

Record Annot : Type := mkAnnot {
  annot_type : Z * string;
  annot_rect : Rect
}.

(** One entry of [page.get_drawings()]: the value under ["fill"] ([None]
    or a tuple of colour channels) and the one under ["rect"]. *)
Record Drawing : Type := mkDrawing {
  drawing_fill : option (list Q);
  drawing_rect : Rect
}.

(** A single-channel raster: one sample per pixel, row after row. *)
Record Pixmap : Type := mkPixmap {
  pix_width : Z;
  pix_height : Z;
  pix_samples : list Z
}.

(** A leaf text run of [page.get_text("dict")]. *)
Record Span : Type := mkSpan {
  span_text : string;
  span_font : string;
  span_size : Q;
  span_flags : Z;
  span_color : Z;
  span_bbox : Q * Q * Q * Q
}.

Record Line : Type := mkLine { line_spans : list Span }.

Record Block : Type := mkBlock {
  block_type : Z;
  block_lines : list Line
}.

Record Page : Type := mkPage {
  page_rect : Rect;
  page_annots : list Annot;                 (* page.annots() or [] *)
  page_drawings : list Drawing;             (* page.get_drawings() *)
  page_pixmap : Z -> result Pixmap;         (* get_pixmap(dpi, csGRAY) *)
  page_blocks : list Block                  (* get_text("dict")["blocks"] *)
}.

(** An opened document: its handle, and what iterating over it yields
    (the pages, or the exception page loading raises). *)
Record Document : Type := mkDocument {
  doc_handle : nat;
  doc_pages : result (list Page)
}.

(** The process as far as documents go: the handles currently open. *)
Record World : Type := mkWorld {
  next_handle : nat;
  open_handles : gset nat
}.

(** A call that may open and close documents and may raise. *)
Definition M (A : Type) : Type := World -> World * result A.

Definition m_ret {A} (v : A) : M A := fun w => (w, Return v).

Definition m_bind {A B} (c : M A) (k : A -> M B) : M B :=
  fun w => match c w with
           | (w', Return v) => k v w'
           | (w', Raise e) => (w', Raise e)
           end.

(** A computation that touches no handle. *)
Definition lift {A} (r : result A) : M A := fun w => (w, r).

(** What the engine makes of a byte string: the pages of a document, or
    the exception for bytes it cannot open. *)
Definition Parser : Type := bytes -> result (result (list Page)).

(** [fitz.open(stream=..., filetype="pdf")] *)
Definition fitz_open (parse : Parser) (stream : bytes) : M Document :=
  fun w =>
    match parse stream with
    | Raise e => (w, Raise e)
    | Return pages =>
        let h := next_handle w in
        ({| next_handle := S h; open_handles := {[h]} ∪ open_handles w |},
         Return {| doc_handle := h; doc_pages := pages |})
    end.

(** [doc.close()] *)
Definition doc_close (doc : Document) : M unit :=
  fun w =>
    ({| next_handle := next_handle w;
        open_handles := open_handles w ∖ {[doc_handle doc]} |},
     Return tt).

(** [enumerate(l)] *)
Fixpoint enumerate_from {A} (i : Z) (l : list A) : list (Z * A) :=
  match l with
  | [] => []
  | a :: l' => (i, a) :: enumerate_from (i + 1) l'
  end.

Definition enumerate {A} (l : list A) : list (Z * A) := enumerate_from 0 l.

(** [range(n)] *)
Definition range (n : Z) : list Z := map Z.of_nat (seq 0 (Z.to_nat n)).

End Fitz.

Import Fitz.

#[global] Instance M_ret : MRet M := @m_ret.
#[global] Instance M_bind : MBind M := fun A B k c => m_bind c k.

(** ** widths.py: font lookup, the shaping cache and width computation *)

Module Widths.

(** *** Numbers *)

(** [a / b] on Python integers: true division. *)
Definition py_truediv (a b : Z) : result Q :=
  if b =? 0 then Raise ZeroDivisionError
  else Return (inject_Z a / inject_Z b)%Q.

(** [round(x)] with one argument: to the nearest integer, ties to the
    even one. *)
Definition round_half_even (n d : Z) : Z :=
  let f := n / d in
  let r := n mod d in
  if 2 * r <? d then f
  else if d <? 2 * r then f + 1
  else if Z.even f then f else f + 1.

Definition py_round (x : Q) : Z := round_half_even (Qnum x) (Z.pos (Qden x)).

(** [repr] of a string without quotes or escapes, and of a list of such. *)
Definition py_repr_str (s : string) : string := ("'" ++ s ++ "'")%string.

Fixpoint py_join (sep : string) (l : list string) : string :=
  match l with
  | [] => EmptyString
  | [s] => s
  | s :: rest => (s ++ sep ++ py_join sep rest)%string
  end.

Definition py_repr_list (l : list string) : string :=
  ("[" ++ py_join ", " (map py_repr_str l) ++ "]")%string.

(** *** The shaping engine's objects *)

Record GlyphPosition : Type := mkGlyphPosition {
  x_advance : Z;
  y_advance : Z;
  x_offset : Z;
  y_offset : Z
}.

(** A loaded font program: its units per em, and what [hb.shape] yields
    for a font of this face at a given scale, text and feature
    dictionary. *)
Record Face : Type := mkFace {
  face_upem : Z;
  face_shape : Z * Z -> string -> gmap string bool -> list GlyphPosition
}.

(** *** The platform: operating system and font directories *)

Definition Path : Type := string.

Record Platform : Type := mkPlatform {
  system : string;                        (* platform.system() *)
  home : Path;                            (* Path.home() *)
  path_exists : Path -> bool;             (* Path.exists() *)
  rglob : Path -> string -> list Path;    (* list(base.rglob(name)) *)
  font_program : Path -> Face             (* hb.Face(hb.Blob.from_file_path(p)) *)
}.

Definition path_sep (sys : string) : string :=
  if String.eqb sys "Windows" then String (ascii_of_nat 92) EmptyString
  else "/"%string.

(** [base / name] *)
Definition path_join (sys : string) (base : Path) (name : string) : Path :=
  (base ++ path_sep sys ++ name)%string.

(** *** FONT_FILES, in declaration order *)

Definition FONT_FILES : list (FontT * list string) :=
  [ (Arial, ["Arial.ttf"; "LiberationSans-Regular.ttf"; "Arimo-Regular.ttf"]);
    (Calibri, ["Calibri.ttf"; "Carlito-Regular.ttf"]);
    (Cambria, ["Cambria.ttf"; "Caladea-Regular.ttf"]);
    (CourierNew, ["Courier New.ttf"; "cour.ttf";
                  "LiberationMono-Regular.ttf"; "Cousine-Regular.ttf"]);
    (Helvetica, ["Helvetica.ttc"; "Helvetica.ttf"; "Arial.ttf";
                 "LiberationSans-Regular.ttf"; "Arimo-Regular.ttf"]);
    (TimesNewRoman, ["Times New Roman.ttf"; "times.ttf";
                     "LiberationSerif-Regular.ttf"; "Tinos-Regular.ttf"]) ]%string.

(** [d[k]] on a dictionary kept in insertion order. *)
Fixpoint dict_getitem {V} (d : list (FontT * V)) (k : FontT) : result V :=
  match d with
  | [] => Raise KeyError
  | (k', v) :: rest => if decide (k' = k) then Return v else dict_getitem rest k
  end.

Definition search_paths (pf : Platform) : list Path :=
  if String.eqb (system pf) "Darwin" then
    [ "/System/Library/Fonts";
      "/Library/Fonts";
      path_join (system pf) (home pf) "Library/Fonts" ]%string
  else if String.eqb (system pf) "Windows" then
    [ "C:\Windows\Fonts" ]%string
  else
    [ "/usr/share/fonts";
      "/usr/local/share/fonts";
      path_join (system pf) (home pf) ".fonts" ]%string.

(** The inner [for base in search_paths] loop for one file name. *)
Fixpoint search_bases (pf : Platform) (filename : string) (bases : list Path)
  : option Path :=
  match bases with
  | [] => None
  | base :: rest =>
      let candidate := path_join (system pf) base filename in
      if path_exists pf candidate then Some candidate
      else match rglob pf base filename with
           | m :: _ => Some m
           | [] => search_bases pf filename rest
           end
  end.

(** The outer [for filename in filenames] loop. *)
Fixpoint search_filenames (pf : Platform) (filenames : list string)
  (bases : list Path) : option Path :=
  match filenames with
  | [] => None
  | filename :: rest =>
      match search_bases pf filename bases with
      | Some p => Some p
      | None => search_filenames pf rest bases
      end
  end.

Definition not_found_message (filenames : list string) : string :=
  ("Font file not found: " ++ py_repr_list filenames)%string.

Definition _get_font_path (pf : Platform) (font : FontT) : result Path :=
  filenames ← dict_getitem FONT_FILES font;
  match search_filenames pf filenames (search_paths pf) with
  | Some p => Return p
  | None => Raise (FileNotFoundError (not_found_message filenames))
  end.

Record FontCache : Type := mkFontCache {
  faces : gmap FontT Face;
  upem : gmap FontT Z
}.

(** The loop of [FontCache.__init__] over [to_load], on the object under
    construction. *)
Fixpoint load_fonts (pf : Platform) (to_load : list FontT) (self : FontCache)
  : result FontCache :=
  match to_load with
  | [] => Return self
  | font_name :: rest =>
      path ← _get_font_path pf font_name;
      let face := font_program pf path in
      load_fonts pf rest
        {| faces := <[font_name := face]> (faces self);
           upem := <[font_name := face_upem face]> (upem self) |}
  end.

Definition to_load (fonts : option (list FontT)) : list FontT :=
  match fonts with
  | Some l => l
  | None => map fst FONT_FILES
  end.

(** [FontCache(fonts)]: the constructed object, or the exception. *)
Definition FontCache_init (pf : Platform) (fonts : option (list FontT))
  : result FontCache :=
  load_fonts pf (to_load fonts) {| faces := ∅; upem := ∅ |}.

(** [d[k]] on a [dict]. *)
Definition gmap_getitem {V} (d : gmap FontT V) (k : FontT) : result V :=
  match d !! k with
  | Some v => Return v
  | None => Raise KeyError
  end.

(** The [features] dictionary built from the two keyword flags. *)
Definition features_of (kerning ligatures : bool) : gmap string bool :=
  let features : gmap string bool := ∅ in
  let features := if negb kerning then <["kern"%string := false]> features
                  else features in
  if negb ligatures then <["liga"%string := false]> features else features.

Definition sum_Z (l : list Z) : Z := fold_left Z.add l 0.

Definition total_advance_of (positions : list GlyphPosition) : Z :=
  sum_Z (map x_advance positions).

Definition calculate_width (text : string) (font : FontT) (size : Z)
  (cache : FontCache) (kerning ligatures : bool) : result Z :=
  face ← gmap_getitem (faces cache) font;
  upem ← gmap_getitem (upem cache) font;
  let hb_font_scale := (upem, upem) in
  let features := features_of kerning ligatures in
  let positions := face_shape face hb_font_scale text features in
  let total_advance := total_advance_of positions in
  width_px ← py_truediv (total_advance * size) upem;
  Return (py_round width_px).

End Widths.

(** ** pdf_info.py: the span extractor *)

Module SpanExtractor.
Import PdfInfo Widths.

Record FontInfo : Type := mkFontInfo {
  name : string;
  size : Z;
  bold : bool;
  italic : bool;
  monospaced : bool;
  serif : bool;
  color : Z;
  matched_font : option FontT
}.

Record TextSpan : Type := mkTextSpan {
  text : string;
  font : FontInfo;
  page : Z;
  bbox : Q * Q * Q * Q
}.

(** Characters [str.strip()] removes. *)
Definition is_space (c : ascii) : bool :=
  let n := N_of_ascii c in
  (((9 <=? n) && (n <=? 13)) || ((28 <=? n) && (n <=? 32)))%N.

Fixpoint lstrip (s : string) : string :=
  match s with
  | EmptyString => EmptyString
  | String c s' => if is_space c then lstrip s' else s
  end.

Fixpoint rstrip (s : string) : string :=
  match s with
  | EmptyString => EmptyString
  | String c s' =>
      match rstrip s' with
      | EmptyString => if is_space c then EmptyString else String c EmptyString
      | r => String c r
      end
  end.

(** [s.strip()] *)
Definition strip (s : string) : string := rstrip (lstrip s).

(** Truth value of a string: non-empty. *)
Definition str_bool (s : string) : bool :=
  match s with EmptyString => false | String _ _ => true end.

(** [bool(flags & mask)] *)
Definition flag (flags mask : Z) : bool := negb (Z.land flags mask =? 0).

(** The body of the innermost loop: what one run appends to [spans]. *)
Definition span_record (page_num : Z) (span : Span) : list TextSpan :=
  if negb (str_bool (strip (span_text span))) then []
  else
    let flags := span_flags span in
    let font :=
      {| name := span_font span;
         size := py_round (span_size span);
         bold := flag flags 16;
         italic := flag flags 2;
         monospaced := flag flags 8;
         serif := flag flags 4;
         color := span_color span;
         matched_font := _match_font (span_font span) |} in
    let bbox := span_bbox span in
    [ {| text := span_text span;
         font := font;
         page := page_num;
         bbox := (bbox.1.1.1, bbox.1.1.2, bbox.1.2, bbox.2) |} ].

Definition block_records (page_num : Z) (block : Block) : list TextSpan :=
  if negb (block_type block =? 0) then []
  else flat_map (fun line => flat_map (span_record page_num) (line_spans line))
                (block_lines block).

Definition page_records (page_num : Z) (page : Page) : list TextSpan :=
  flat_map (block_records page_num) (page_blocks page).

Definition extract_font_info (parse : Parser) (pdf_bytes : bytes)
  : M (list TextSpan) :=
  doc ← fitz_open parse pdf_bytes;
  spans ← lift (pages ← doc_pages doc;
                mret (flat_map (fun '(page_num, page) =>
                                  page_records page_num page)
                               (enumerate pages)));
  _ ← doc_close doc;
  mret spans.

End SpanExtractor.

(** ** pdf_redactions.py: the three detectors and their fusion *)

Module Redactions.

Record RedactionBox : Type := mkRedactionBox {
  page : Z;
  bbox : Q * Q * Q * Q
}.

Definition bbox0 (b : RedactionBox) : Q := (bbox b).1.1.1.
Definition bbox1 (b : RedactionBox) : Q := (bbox b).1.1.2.
Definition bbox2 (b : RedactionBox) : Q := (bbox b).1.2.
Definition bbox3 (b : RedactionBox) : Q := (bbox b).2.

Definition width (b : RedactionBox) : Q := bbox2 b - bbox0 b.
Definition height (b : RedactionBox) : Q := bbox3 b - bbox1 b.

Definition box_of_rect (page_num : Z) (r : Rect) : RedactionBox :=
  {| page := page_num; bbox := (x0 r, y0 r, x1 r, y1 r) |}.

(** *** Annotations *)

Definition annot_boxes (page_num : Z) (pg : Page) : list RedactionBox :=
  flat_map (fun annot =>
              if (annot_type annot).1 =? PDF_ANNOT_REDACT
              then [box_of_rect page_num (annot_rect annot)]
              else [])
           (page_annots pg).

Definition _find_annotation_redactions (doc : Document)
  : result (list RedactionBox) :=
  pages ← doc_pages doc;
  mret (flat_map (fun '(page_num, pg) => annot_boxes page_num pg)
                 (enumerate pages)).

(** *** Vector drawings *)

Definition drawing_boxes (page_num : Z) (pg : Page) : list RedactionBox :=
  flat_map (fun drawing =>
              match drawing_fill drawing with
              | None => []
              | Some fill =>
                  if forallb (fun c => Qle_bool c (1 # 10)) fill then
                    let r := drawing_rect drawing in
                    let w := Rect_width r in
                    let h := Rect_height r in
                    if Qle_bool 15 w && Qle_bool 5 h
                    then [box_of_rect page_num r]
                    else []
                  else []
              end)
           (page_drawings pg).

Definition _find_vector_redactions (doc : Document)
  : result (list RedactionBox) :=
  pages ← doc_pages doc;
  mret (flat_map (fun '(page_num, pg) => drawing_boxes page_num pg)
                 (enumerate pages)).

(** *** The raster scanner *)

(** [samples[i]] *)
Definition getitem (samples : list Z) (i : Z) : result Z :=
  let i := if i <? 0 then i + Z.of_nat (length samples) else i in
  if i <? 0 then Raise IndexError
  else match samples !! Z.to_nat i with
       | Some v => Return v
       | None => Raise IndexError
       end.

Record RunState : Type := mkRunState {
  runs : list (Z * Z);
  in_run : bool;
  start : Z
}.

(** One iteration of the loop over [x]. *)
Definition dark_step (samples : list Z) (offset threshold min_width : Z)
  (st : RunState) (x : Z) : result RunState :=
  v ← getitem samples (offset + x);
  if v <? threshold then
    if negb (in_run st)
    then mret {| runs := runs st; in_run := true; start := x |}
    else mret st
  else
    if in_run st then
      let runs :=
        if x - start st >=? min_width then runs st ++ [(start st, x)]
        else runs st in
      mret {| runs := runs; in_run := false; start := start st |}
    else mret st.

Fixpoint dark_loop (samples : list Z) (offset threshold min_width : Z)
  (xs : list Z) (st : RunState) : result RunState :=
  match xs with
  | [] => mret st
  | x :: xs' =>
      st' ← dark_step samples offset threshold min_width st x;
      dark_loop samples offset threshold min_width xs' st'
  end.

Definition _get_dark_runs (samples : list Z) (y width threshold min_width : Z)
  : result (list (Z * Z)) :=
  let offset := y * width in
  st ← dark_loop samples offset threshold min_width (range width)
         {| runs := []; in_run := false; start := 0 |};
  if in_run st && (width - start st >=? min_width)
  then mret (runs st ++ [(start st, width)])
  else mret (runs st).

Definition close_enough (tolerance : Z) (p : (Z * Z) * (Z * Z)) : bool :=
  let '(ra, rb) := p in
  (Z.abs (ra.1 - rb.1) <=? tolerance) && (Z.abs (ra.2 - rb.2) <=? tolerance).

Definition _runs_match (a b : list (Z * Z)) (tolerance : Z) : bool :=
  if negb (length a =? length b)%nat || negb (0 <? length a)%nat then false
  else forallb (close_enough tolerance) (zip a b).

Definition run_tolerance : Z := 3.
Definition min_rows : Z := 5.

Record ScanState : Type := mkScanState {
  prev_runs : list (Z * Z);
  rect_start_y : Z;
  results : list RedactionBox
}.

(** The box a run of a closed region becomes. *)
Definition run_box (page_num : Z) (scale_x scale_y : Q)
  (rect_start_y y : Z) (run : Z * Z) : RedactionBox :=
  {| page := page_num;
     bbox := (inject_Z run.1 * scale_x,
              inject_Z rect_start_y * scale_y,
              inject_Z run.2 * scale_x,
              inject_Z y * scale_y)%Q |}.

(** "Close previous rectangles" / "Close final rectangles": the results
    after the region open in [st] is closed at row [y]. *)
Definition close_rects (page_num : Z) (scale_x scale_y : Q)
  (st : ScanState) (y : Z) : list RedactionBox :=
  if (0 <? length (prev_runs st))%nat && (y - rect_start_y st >=? min_rows)
  then results st ++
       map (run_box page_num scale_x scale_y (rect_start_y st) y) (prev_runs st)
  else results st.

(** The body of the loop over [y], once the row's runs are known. *)
Definition scan_step (page_num : Z) (scale_x scale_y : Q)
  (st : ScanState) (y : Z) (row_runs : list (Z * Z)) : ScanState :=
  if _runs_match row_runs (prev_runs st) run_tolerance then st
  else {| prev_runs := row_runs;
          rect_start_y := y;
          results := close_rects page_num scale_x scale_y st y |}.

Fixpoint scan_rows (pix : Pixmap) (dark_threshold min_run_px : Z)
  (page_num : Z) (scale_x scale_y : Q) (ys : list Z) (st : ScanState)
  : result ScanState :=
  match ys with
  | [] => mret st
  | y :: ys' =>
      row_runs ← _get_dark_runs (pix_samples pix) y (pix_width pix)
                   dark_threshold min_run_px;
      scan_rows pix dark_threshold min_run_px page_num scale_x scale_y ys'
                (scan_step page_num scale_x scale_y st y row_runs)
  end.

(** [a / b] on floats. *)
Definition q_truediv (a b : Q) : result Q :=
  if Qeq_bool b 0 then Raise ZeroDivisionError else Return (a / b)%Q.

(** [int(x)]: truncation towards zero. *)
Definition py_int (x : Q) : Z := Z.quot (Qnum x) (Z.pos (Qden x)).

(** One iteration of the loop over pages: the shared [results] list
    after the page has been scanned. *)
Definition scan_page (dpi dark_threshold : Z) (min_width_pt : Q)
  (page_num : Z) (pg : Page) (results : list RedactionBox)
  : result (list RedactionBox) :=
  pix ← page_pixmap pg dpi;
  let w := pix_width pix in
  let h := pix_height pix in
  scale_x ← q_truediv (Rect_width (page_rect pg)) (inject_Z w);
  scale_y ← q_truediv (Rect_height (page_rect pg)) (inject_Z h);
  q ← q_truediv min_width_pt scale_x;
  let min_run_px := py_int q in
  st ← scan_rows pix dark_threshold min_run_px page_num scale_x scale_y
         (range h)
         {| prev_runs := []; rect_start_y := 0; results := results |};
  mret (close_rects page_num scale_x scale_y st h).

Fixpoint scan_pages (dpi dark_threshold : Z) (min_width_pt : Q)
  (pages : list (Z * Page)) (results : list RedactionBox)
  : result (list RedactionBox) :=
  match pages with
  | [] => mret results
  | (page_num, pg) :: rest =>
      results' ← scan_page dpi dark_threshold min_width_pt page_num pg results;
      scan_pages dpi dark_threshold min_width_pt rest results'
  end.

Definition _find_image_redactions (doc : Document) (dpi dark_threshold : Z)
  (min_height_pt min_width_pt : Q) : result (list RedactionBox) :=
  pages ← doc_pages doc;
  results ← scan_pages dpi dark_threshold min_width_pt (enumerate pages) [];
  mret (filter (fun r => Qle_bool min_height_pt (height r) = true) results).

(** *** Fusion *)

Definition sort_key (r : RedactionBox) : Z * Q * Q :=
  (page r, bbox1 r, bbox0 r).

(** [a < b] on the key tuples: decided at the first component where
    they differ. *)
Definition key_lt (a b : Z * Q * Q) : bool :=
  let '(p1, y1, x1) := a in
  let '(p2, y2, x2) := b in
  if negb (p1 =? p2) then p1 <? p2
  else if negb (Qeq_bool y1 y2) then negb (Qle_bool y2 y1)
  else if negb (Qeq_bool x1 x2) then negb (Qle_bool x2 x1)
  else false.

(** [list.sort(key=...)]: a stable sort, as insertion from the left. *)
Fixpoint insert_by {A K} (lt : K -> K -> bool) (key : A -> K)
  (x : A) (l : list A) : list A :=
  match l with
  | [] => [x]
  | y :: l' => if lt (key x) (key y) then x :: y :: l'
               else y :: insert_by lt key x l'
  end.

Definition sort_by {A K} (lt : K -> K -> bool) (key : A -> K)
  (l : list A) : list A :=
  fold_left (fun sorted x => insert_by lt key x sorted) l [].

Definition find_redactions (parse : Parser) (pdf_bytes : bytes)
  : M (list RedactionBox) :=
  doc ← fitz_open parse pdf_bytes;
  results ← lift (_find_annotation_redactions doc);
  vector ← lift (_find_vector_redactions doc);
  let results := results ++ vector in
  image ← lift (_find_image_redactions doc 150 80 5 15);
  let results := results ++ image in
  _ ← doc_close doc;
  mret (sort_by key_lt sort_key results).

End Redactions.

(* ------------------------------------------------------------------ *)
(** ** Facts about the string built-ins *)

Section StringFacts.

Lemma starts_with_spec (p s : string) :
  starts_with p s = true <-> exists post, s = (p ++ post)%string.
Proof.
  revert s. induction p as [|a p IH]; intros s; simpl.
  - split; [intros _; exists s; reflexivity | reflexivity].
  - destruct s as [|b s].
    + split; [discriminate | intros [post H]; discriminate].
    + rewrite andb_true_iff, IH. split.
      * intros [Hab [post ->]]. apply Ascii.eqb_eq in Hab. subst.
        exists post. reflexivity.
      * intros [post H]. injection H as -> ->. split.
        -- apply Ascii.eqb_refl.
        -- exists post. reflexivity.
Qed.

Lemma str_contains_spec (sub s : string) :
  str_contains sub s = true <-> Substring sub s.
Proof.
  unfold Substring. induction s as [|c s IH].
  - simpl. rewrite orb_false_r, starts_with_spec. split.
    + intros [post H]. exists EmptyString, post. exact H.
    + intros [pre [post H]]. destruct pre; [|discriminate].
      exists post. exact H.
  - cbn [str_contains]. rewrite orb_true_iff, starts_with_spec, IH. split.
    + intros [[post H] | [pre [post H]]].
      * exists EmptyString, post. exact H.
      * exists (String c pre), post. simpl. rewrite H. reflexivity.
    + intros [pre [post H]]. destruct pre as [|c' pre].
      * left. exists post. exact H.
      * right. simpl in H. injection H as _ H. exists pre, post. exact H.
Qed.

Lemma str_app_empty_r (s : string) : (s ++ EmptyString)%string = s.
Proof.
  induction s as [|c s IH]; [reflexivity|].
  change (String c (s ++ EmptyString)%string = String c s). f_equal. exact IH.
Qed.

Lemma str_contains_false (sub s : string) :
  str_contains sub s = false <-> ~ Substring sub s.
Proof.
  rewrite <- str_contains_spec. destruct (str_contains sub s); split;
    congruence.
Qed.

End StringFacts.

(** ** The font resolver returns the first matching rule *)

Section FontResolver.
Import PdfInfo.

Lemma match_rules_Some rules lower f :
  match_rules rules lower = Some f <->
  exists (i : nat) (sub : string),
    rules !! i = Some (sub, f) /\ Substring sub lower /\
    forall (j : nat) sub' f', (j < i)%nat -> rules !! j = Some (sub', f') ->
                              ~ Substring sub' lower.
Proof.
  induction rules as [|[s g] rules IH]; simpl.
  - split; [discriminate | intros (i & sub & H & _); destruct i; discriminate].
  - destruct (str_contains s lower) eqn:E.
    + split.
      * intros [= ->]. exists 0%nat, s. split; [reflexivity|].
        split; [apply str_contains_spec, E | intros j ? ? Hj; lia].
      * intros (i & sub & Hi & Hsub & Hmin). destruct i as [|i].
        -- simpl in Hi. congruence.
        -- exfalso. apply (Hmin 0%nat s g); [lia | reflexivity |].
           apply str_contains_spec, E.
    + rewrite IH. apply str_contains_false in E. split.
      * intros (i & sub & Hi & Hsub & Hmin). exists (S i), sub.
        split; [exact Hi|]. split; [exact Hsub|].
        intros [|j] sub' f' Hj Hl.
        -- simpl in Hl. injection Hl as <- <-. exact E.
        -- apply (Hmin j sub' f'); [lia | exact Hl].
      * intros (i & sub & Hi & Hsub & Hmin). destruct i as [|i].
        -- simpl in Hi. injection Hi as <- <-. contradiction.
        -- exists i, sub. split; [exact Hi|]. split; [exact Hsub|].
           intros j sub' f' Hj Hl. apply (Hmin (S j) sub' f'); [lia | exact Hl].
Qed.

Lemma match_rules_None rules lower :
  match_rules rules lower = None <->
  forall sub f, (sub, f) ∈ rules -> ~ Substring sub lower.
Proof.
  induction rules as [|[s g] rules IH]; simpl.
  - split; [intros _ sub f H; inversion H | reflexivity].
  - destruct (str_contains s lower) eqn:E.
    + split; [discriminate|]. intros H. exfalso.
      apply (H s g); [left | apply str_contains_spec, E].
    + rewrite IH. apply str_contains_false in E. split.
      * intros H sub f Hin. apply elem_of_cons in Hin as [[= -> ->] | Hin];
          [exact E | exact (H sub f Hin)].
      * intros H sub f Hin. apply (H sub f). right. exact Hin.
Qed.

End FontResolver.

(** *** The resolver's contract *)

Section FontResolverContract.
Import PdfInfo.

(** C4. The resolver lowercases the raw name and returns the family of
    the first rule, in list order, whose substring occurs in the
    lowercased name; it returns [None] exactly when no rule's substring
    occurs; hence a rule that matches with no match before it decides the
    family whatever later (broader) rules match as well. *)
Theorem match_font_first_rule (pdf_font_name : string) :
  let lower := str_lower pdf_font_name in
  (forall f, _match_font pdf_font_name = Some f <->
     exists (i : nat) (sub : string),
       _FONT_NAME_MAP !! i = Some (sub, f) /\ Substring sub lower /\
       forall (j : nat) sub' f', (j < i)%nat ->
         _FONT_NAME_MAP !! j = Some (sub', f') -> ~ Substring sub' lower)
  /\ (_match_font pdf_font_name = None <->
      forall sub f, (sub, f) ∈ _FONT_NAME_MAP -> ~ Substring sub lower)
  /\ (forall (i j : nat) sub_i f_i sub_j f_j,
        (i < j)%nat ->
        _FONT_NAME_MAP !! i = Some (sub_i, f_i) ->
        _FONT_NAME_MAP !! j = Some (sub_j, f_j) ->
        Substring sub_i lower -> Substring sub_j lower ->
        (forall (k : nat) sub' f', (k < i)%nat ->
           _FONT_NAME_MAP !! k = Some (sub', f') -> ~ Substring sub' lower) ->
        _match_font pdf_font_name = Some f_i).
Proof.
  intros lower. unfold _match_font. fold lower. split; [|split].
  - intros f. apply match_rules_Some.
  - apply match_rules_None.
  - intros i j sub_i f_i sub_j f_j _ Hi _ Hsub _ Hmin.
    apply match_rules_Some. exists i, sub_i. auto.
Qed.

Example match_font_specific_before_broad :
  _match_font "Liberation Mono Courier"%string = Some CourierNew /\
  _match_font "Arial-Helvetica"%string = Some Arial /\
  _match_font "Helvetica-Arial"%string = Some Arial /\
  _match_font "TimesNewRomanPSMT"%string = Some TimesNewRoman /\
  _match_font "Wingdings"%string = None.
Proof. repeat split; reflexivity. Qed.

End FontResolverContract.

(** ** Cache construction when a font file is missing *)

Section MissingFont.
Import Widths.

Variable pf : Platform.

(** The list [FONT_FILES[font]] evaluates to. *)
Definition filenames_of (font : FontT) : list string :=
  match dict_getitem FONT_FILES font with
  | Return l => l
  | Raise _ => []
  end.

(** No file name of the family is found in any searched directory,
    neither directly nor below it. *)
Definition no_candidate (font : FontT) : bool :=
  forallb (fun filename =>
             forallb (fun base =>
                        negb (path_exists pf (path_join (system pf) base filename))
                        && match rglob pf base filename with
                           | [] => true
                           | _ :: _ => false
                           end)
                     (search_paths pf))
          (filenames_of font).

Lemma FONT_FILES_total (font : FontT) :
  dict_getitem FONT_FILES font = Return (filenames_of font).
Proof. destruct font; reflexivity. Qed.

Lemma search_bases_None filename bases :
  search_bases pf filename bases = None <->
  forallb (fun base =>
             negb (path_exists pf (path_join (system pf) base filename))
             && match rglob pf base filename with
                | [] => true
                | _ :: _ => false
                end) bases = true.
Proof.
  induction bases as [|base bases IH]; simpl.
  - split; reflexivity.
  - destruct (path_exists pf _); simpl.
    + split; discriminate.
    + destruct (rglob pf base filename); simpl.
      * exact IH.
      * split; discriminate.
Qed.

Lemma search_filenames_None filenames bases :
  search_filenames pf filenames bases = None <->
  forallb (fun filename =>
             forallb (fun base =>
                        negb (path_exists pf (path_join (system pf) base filename))
                        && match rglob pf base filename with
                           | [] => true
                           | _ :: _ => false
                           end) bases) filenames = true.
Proof.
  induction filenames as [|filename filenames IH]; simpl.
  - split; reflexivity.
  - destruct (search_bases pf filename bases) eqn:E.
    + split; [discriminate|]. intros H. apply andb_true_iff in H as [H _].
      apply search_bases_None in H. congruence.
    + apply search_bases_None in E. rewrite E. simpl. exact IH.
Qed.

Lemma get_font_path_missing font :
  no_candidate font = true ->
  _get_font_path pf font =
  Raise (FileNotFoundError (not_found_message (filenames_of font))).
Proof.
  intros H. unfold _get_font_path. rewrite FONT_FILES_total. simpl.
  apply search_filenames_None in H. rewrite H. reflexivity.
Qed.

Lemma get_font_path_found font :
  no_candidate font = false ->
  exists p, _get_font_path pf font = Return p.
Proof.
  intros H. unfold _get_font_path. rewrite FONT_FILES_total. simpl.
  destruct (search_filenames pf _ _) eqn:E; [eauto|].
  apply search_filenames_None in E. unfold no_candidate in H. congruence.
Qed.

Lemma load_fonts_missing pre font rest self :
  (forall g, g ∈ pre -> no_candidate g = false) ->
  no_candidate font = true ->
  load_fonts pf (pre ++ font :: rest) self =
  Raise (FileNotFoundError (not_found_message (filenames_of font))).
Proof.
  revert self. induction pre as [|g pre IH]; intros self Hpre Hf; simpl.
  - rewrite (get_font_path_missing font Hf). reflexivity.
  - destruct (get_font_path_found g) as [p Hp]; [apply Hpre; left|].
    rewrite Hp. simpl. apply IH; [|exact Hf].
    intros g' Hg'. apply Hpre. right. exact Hg'.
Qed.

(** The first family of a list that has no candidate. *)
Lemma first_missing (l : list FontT) :
  (exists f, f ∈ l /\ no_candidate f = true) ->
  exists pre f rest,
    l = pre ++ f :: rest /\ no_candidate f = true /\
    forall g, g ∈ pre -> no_candidate g = false.
Proof.
  induction l as [|a l IH]; intros (f & Hin & Hf).
  - inversion Hin.
  - destruct (no_candidate a) eqn:Ea.
    + exists [], a, l. split; [reflexivity|]. split; [exact Ea|].
      intros g Hg. inversion Hg.
    + apply elem_of_cons in Hin as [-> | Hin]; [congruence|].
      destruct IH as (pre & f' & rest & -> & Hf' & Hpre); [eauto|].
      exists (a :: pre), f', rest. split; [reflexivity|]. split; [exact Hf'|].
      intros g Hg. apply elem_of_cons in Hg as [-> | Hg]; auto.
Qed.

Lemma message_names_family font :
  str_contains (FontT_name font)
               (str_lower (not_found_message (filenames_of font))) = true.
Proof. destruct font; vm_compute; reflexivity. Qed.

Lemma message_determines_family f g :
  not_found_message (filenames_of g) = not_found_message (filenames_of f) ->
  g = f.
Proof.
  destruct f, g; intros H; try reflexivity; vm_compute in H; discriminate H.
Qed.

Lemma message_lists_filenames font :
  Substring (py_repr_list (filenames_of font))
            (not_found_message (filenames_of font)).
Proof.
  exists "Font file not found: "%string, EmptyString.
  unfold not_found_message. rewrite str_app_empty_r. reflexivity.
Qed.

(** C3. If some requested family has no candidate file in any searched
    directory, construction raises [FileNotFoundError] for the first such
    family in request order: the message carries the list of file names
    tried, which names the family (up to letter case) and determines it;
    the families after it are not looked at (the outcome is the same for
    every continuation of the request list), and no cache is returned. *)
Theorem FontCache_init_missing_font (fonts : option (list FontT)) :
  (exists f, f ∈ to_load fonts /\ no_candidate f = true) ->
  exists pre f rest,
    to_load fonts = pre ++ f :: rest /\
    no_candidate f = true /\
    (forall g, g ∈ pre -> no_candidate g = false) /\
    let msg := not_found_message (filenames_of f) in
    FontCache_init pf fonts = Raise (FileNotFoundError msg) /\
    (forall rest',
        FontCache_init pf (Some (pre ++ f :: rest')) =
        Raise (FileNotFoundError msg)) /\
    (forall cache, FontCache_init pf fonts <> Return cache) /\
    Substring (py_repr_list (filenames_of f)) msg /\
    Substring (FontT_name f) (str_lower msg) /\
    (forall g, not_found_message (filenames_of g) = msg -> g = f).
Proof.
  intros H. destruct (first_missing _ H) as (pre & f & rest & E & Hf & Hpre).
  exists pre, f, rest. split; [exact E|]. split; [exact Hf|].
  split; [exact Hpre|]. cbv zeta.
  assert (Hraise : FontCache_init pf fonts =
                   Raise (FileNotFoundError (not_found_message (filenames_of f)))).
  { unfold FontCache_init. rewrite E. apply load_fonts_missing; assumption. }
  split; [exact Hraise|]. split.
  { intros rest'. unfold FontCache_init. simpl.
    apply load_fonts_missing; assumption. }
  split; [rewrite Hraise; discriminate|].
  split; [apply message_lists_filenames|].
  split; [apply str_contains_spec, message_names_family|].
  intros g. apply message_determines_family.
Qed.

End MissingFont.

(** A Linux machine on which only Carlito is installed. *)
Definition carlito_only : Widths.Platform :=
  {| Widths.system := "Linux";
     Widths.home := "/home/user";
     Widths.path_exists := fun _ => false;
     Widths.rglob := fun base name =>
       if (String.eqb base "/usr/share/fonts" && String.eqb name "Carlito-Regular.ttf")%bool
       then ["/usr/share/fonts/truetype/crosextra/Carlito-Regular.ttf"%string]
       else [];
     Widths.font_program := fun _ =>
       {| Widths.face_upem := 2048; Widths.face_shape := fun _ _ _ => [] |} |}.

Lemma FontCache_init_missing_font_witness :
  (exists f, f ∈ Widths.to_load (Some [Calibri; TimesNewRoman; Arial]) /\
             no_candidate carlito_only f = true) /\
  exists pre f rest,
    Widths.to_load (Some [Calibri; TimesNewRoman; Arial]) = pre ++ f :: rest /\
    no_candidate carlito_only f = true /\
    (forall g, g ∈ pre -> no_candidate carlito_only g = false) /\
    let msg := Widths.not_found_message (filenames_of f) in
    Widths.FontCache_init carlito_only (Some [Calibri; TimesNewRoman; Arial]) =
    Raise (FileNotFoundError msg) /\
    (forall rest',
        Widths.FontCache_init carlito_only (Some (pre ++ f :: rest')) =
        Raise (FileNotFoundError msg)) /\
    (forall cache,
        Widths.FontCache_init carlito_only (Some [Calibri; TimesNewRoman; Arial])
        <> Return cache) /\
    Substring (Widths.py_repr_list (filenames_of f)) msg /\
    Substring (FontT_name f) (str_lower msg) /\
    (forall g, Widths.not_found_message (filenames_of g) = msg -> g = f).
Proof.
  assert (H : exists f, f ∈ Widths.to_load (Some [Calibri; TimesNewRoman; Arial]) /\
                        no_candidate carlito_only f = true).
  { exists Arial. split; [|vm_compute; reflexivity].
    apply list_elem_of_In. simpl. auto. }
  split; [exact H|].
  exact (FontCache_init_missing_font carlito_only
           (Some [Calibri; TimesNewRoman; Arial]) H).
Defined.

Example FontCache_init_carlito_only :
  Widths.FontCache_init carlito_only (Some [Calibri; TimesNewRoman; Arial]) =
  Raise (FileNotFoundError
           "Font file not found: ['Times New Roman.ttf', 'times.ttf', 'LiberationSerif-Regular.ttf', 'Tinos-Regular.ttf']").
Proof. vm_compute. reflexivity. Qed.

(** ** Width computation: scaling and rounding *)

Section Rounding.
Import Widths.









End Rounding.

(** A face with Arial-like metrics (2048 units per em) and no kerning or
    ligatures: every character becomes one glyph with its own advance. *)
Definition sample_advance (c : ascii) : Z :=
  if Ascii.eqb c "i" then 455
  else if Ascii.eqb c " " then 569
  else if Ascii.eqb c "W" then 1933
  else 1139.

Definition sample_face : Widths.Face :=
  {| Widths.face_upem := 2048;
     Widths.face_shape := fun scale text _ =>
       map (fun c => Widths.mkGlyphPosition (sample_advance c * scale.1 / 2048) 0 0 0)
           (list_ascii_of_string text) |}.

Definition sample_cache : Widths.FontCache :=
  {| Widths.faces := {[ Arial := sample_face ]};
     Widths.upem := {[ Arial := 2048 ]} |}.

Section WidthProperties.
Import Widths.

Example calculate_width_sample :
  calculate_width "Wii" Arial 12 sample_cache true true = Return 17 /\
  calculate_width "i" Arial 8 sample_cache true true = Return 2 /\
  calculate_width "i" Arial 9 sample_cache true true = Return 2 /\
  calculate_width "i" Calibri 9 sample_cache true true = Raise KeyError.
Proof. repeat split; vm_compute; reflexivity. Qed.




End WidthProperties.



Example calculate_width_repeated_glyph :
  Widths.calculate_width EmptyString Arial 12 sample_cache true true = Return 0 /\
  Widths.calculate_width "i" Arial 12 sample_cache true true = Return 3 /\
  Widths.calculate_width "ii" Arial 12 sample_cache true true = Return 5 /\
  Widths.calculate_width "iii" Arial 12 sample_cache true true = Return 8.
Proof. repeat split; vm_compute; reflexivity. Qed.

(** ** The raster scanner: regions, anchors and finalization *)

Section Scanner.
Import Redactions.

Variable pix : Pixmap.
Variables dark_threshold min_run_px page_num : Z.
Variables scale_x scale_y : Q.

Abbreviation row_runs y :=
  (_get_dark_runs (pix_samples pix) y (pix_width pix) dark_threshold min_run_px).
Abbreviation scan :=
  (scan_rows pix dark_threshold min_run_px page_num scale_x scale_y).
Abbreviation box := (run_box page_num scale_x scale_y).

(** Row [y] has a run set, and it matches the run set [anchor]. *)
Definition matches_anchor (anchor : list (Z * Z)) (y : Z) : Prop :=
  exists r, row_runs y = Return r /\ _runs_match r anchor run_tolerance = true.

(** The boxes produced when the region open in [st] is closed at row [y]. *)
Definition emitted (st : ScanState) (y : Z) : list RedactionBox :=
  if y - rect_start_y st >=? min_rows
  then map (box (rect_start_y st) y) (prev_runs st)
  else [].



(** The state still holds the run set of the row its region started at. *)
Definition anchored (st : ScanState) : Prop :=
  prev_runs st = [] \/ row_runs (rect_start_y st) = Return (prev_runs st).

Lemma scan_rows_cons st y ry ys :
  row_runs y = Return ry ->
  scan (y :: ys) st = scan ys (scan_step page_num scale_x scale_y st y ry).
Proof. intros H. cbn [scan_rows]. rewrite H. reflexivity. Qed.

Lemma scan_step_match st y ry :
  _runs_match ry (prev_runs st) run_tolerance = true ->
  scan_step page_num scale_x scale_y st y ry = st.
Proof. intros H. unfold scan_step. rewrite H. reflexivity. Qed.

Lemma close_rects_emitted st y :
  close_rects page_num scale_x scale_y st y = results st ++ emitted st y.
Proof.
  unfold close_rects, emitted.
  destruct (prev_runs st) as [|r rs]; simpl.
  - destruct (_ >=? _); rewrite app_nil_r; reflexivity.
  - destruct (_ >=? _); [reflexivity | rewrite app_nil_r; reflexivity].
Qed.

Lemma scan_step_mismatch st y ry :
  _runs_match ry (prev_runs st) run_tolerance = false ->
  scan_step page_num scale_x scale_y st y ry =
  {| prev_runs := ry; rect_start_y := y;
     results := results st ++ emitted st y |}.
Proof.
  intros H. unfold scan_step. rewrite H, close_rects_emitted. reflexivity.
Qed.

Lemma scan_rows_matching st mid ys :
  Forall (matches_anchor (prev_runs st)) mid ->
  scan (mid ++ ys) st = scan ys st.
Proof.
  induction 1 as [|y mid (r & Hr & Hm) _ IH]; [reflexivity|].
  rewrite <- app_comm_cons, (scan_rows_cons _ _ _ _ Hr).
  rewrite (scan_step_match _ _ _ Hm). exact IH.
Qed.

Lemma scan_rows_region st mid y ry rest :
  Forall (matches_anchor (prev_runs st)) mid ->
  row_runs y = Return ry ->
  _runs_match ry (prev_runs st) run_tolerance = false ->
  scan (mid ++ y :: rest) st =
  scan rest {| prev_runs := ry; rect_start_y := y;
               results := results st ++ emitted st y |}.
Proof.
  intros Hmid Hy Hno. rewrite (scan_rows_matching _ _ _ Hmid).
  rewrite (scan_rows_cons _ _ _ _ Hy), (scan_step_mismatch _ _ _ Hno).
  reflexivity.
Qed.





Lemma scan_rows_anchored ys st st' :
  anchored st -> scan ys st = Return st' -> anchored st'.
Proof.
  revert st. induction ys as [|y ys IH]; intros st Hst Hscan.
  - injection Hscan as <-. exact Hst.
  - cbn [scan_rows] in Hscan.
    destruct (row_runs y) as [ry|] eqn:Ery; [|discriminate].
    cbn [mbind result_bind rbind] in Hscan.
    destruct (_runs_match ry (prev_runs st) run_tolerance) eqn:Em.
    + rewrite (scan_step_match _ _ _ Em) in Hscan. eapply IH; eassumption.
    + rewrite (scan_step_mismatch _ _ _ Em) in Hscan.
      eapply IH; [|exact Hscan]. right. exact Ery.
Qed.


(** C9. While a region is open the state is left untouched by a matching
    row, so the run set a row is compared with is the one of the row the
    region started at: scanning from the initial state always leaves a
    state whose run set is that of its start row. A row that is within
    tolerance of the row just before it but not of the region's start row
    therefore closes the region. *)
Theorem scan_compares_with_anchor st y ry ys :
  row_runs y = Return ry ->
  (_runs_match ry (prev_runs st) run_tolerance = true ->
   scan_step page_num scale_x scale_y st y ry = st /\
   scan (y :: ys) st = scan ys st)
  /\ (forall rows res st',
         scan rows {| prev_runs := []; rect_start_y := 0; results := res |}
         = Return st' ->
         anchored st')
  /\ (forall mid y_prev r_prev,
         Forall (matches_anchor (prev_runs st)) mid ->
         last mid = Some y_prev ->
         row_runs y_prev = Return r_prev ->
         _runs_match ry r_prev run_tolerance = true ->
         _runs_match ry (prev_runs st) run_tolerance = false ->
         scan (mid ++ y :: ys) st =
         scan ys {| prev_runs := ry; rect_start_y := y;
                    results := results st ++ emitted st y |}).
Proof.
  intros Hy. split; [|split].
  - intros Hm. split; [apply scan_step_match; exact Hm|].
    rewrite (scan_rows_cons _ _ _ _ Hy), (scan_step_match _ _ _ Hm).
    reflexivity.
  - intros rows res st' Hscan.
    eapply scan_rows_anchored; [|exact Hscan]. left. reflexivity.
  - intros mid y_prev r_prev Hmid _ _ _ Hno.
    apply scan_rows_region; assumption.
Qed.

End Scanner.

(** *** Synthetic rasters *)

(** A row of [width] samples, black inside the given runs and white
    elsewhere. *)
Definition raster_row (width : Z) (dark : list (Z * Z)) : list Z :=
  map (fun x => if existsb (fun r : Z * Z => (r.1 <=? x) && (x <? r.2)) dark
                then 0 else 255)
      (range width).

Definition raster (width : Z) (rows : list (list (Z * Z))) : Pixmap :=
  {| pix_width := width;
     pix_height := Z.of_nat (length rows);
     pix_samples := flat_map (raster_row width) rows |}.

(** Three rows of a bar, two blank rows, six rows of the same bar, one
    blank row. *)
Definition recurring_pixmap : Pixmap :=
  raster 8 (replicate 3 [(2, 6)] ++ replicate 2 [] ++
            replicate 6 [(2, 6)] ++ [[]]).

(** A bar that moves right by one pixel every second row. *)
Definition drift_pixmap : Pixmap :=
  raster 12 [ [(0, 5)]; [(0, 5)]; [(1, 6)]; [(1, 6)]; [(2, 7)]; [(2, 7)];
              [(3, 8)]; [(3, 8)]; [(4, 9)]; [(4, 9)] ].

Definition raster_page (width height : Q) (pix : Pixmap) : Page :=
  {| page_rect := {| x0 := 0; y0 := 0; x1 := width; y1 := height |};
     page_annots := [];
     page_drawings := [];
     page_pixmap := fun _ => Return pix;
     page_blocks := [] |}.


Lemma scan_compares_with_anchor_witness :
  let st := {| Redactions.prev_runs := [(0, 5)];
               Redactions.rect_start_y := 0;
               Redactions.results := [] |} in
  Redactions._runs_match [(4, 9)] [(3, 8)] Redactions.run_tolerance = true /\
  Redactions.scan_rows drift_pixmap 80 1 0 (180 # 12) (150 # 10)
                       ([1; 2; 3; 4; 5; 6; 7] ++ 8 :: [9]) st =
  Redactions.scan_rows drift_pixmap 80 1 0 (180 # 12) (150 # 10) [9]
    {| Redactions.prev_runs := [(4, 9)];
       Redactions.rect_start_y := 8;
       Redactions.results :=
         Redactions.results st ++ emitted 0 (180 # 12) (150 # 10) st 8 |}.
Proof.
  intros st. split; [reflexivity|].
  destruct (scan_compares_with_anchor drift_pixmap 80 1 0 (180 # 12) (150 # 10)
              st 8 [(4, 9)] [9]) as (_ & _ & Hdrift).
  - vm_compute. reflexivity.
  - apply (Hdrift [1; 2; 3; 4; 5; 6; 7] 7 [(3, 8)]).
    + repeat (constructor; [eexists; split; vm_compute; reflexivity|]).
      constructor.
    + reflexivity.
    + vm_compute. reflexivity.
    + reflexivity.
    + reflexivity.
Defined.

Section ScannerExamples.
Import Redactions.

(** The three-row bar yields nothing; the six-row bar yields one box whose
    vertical extent is exactly its own rows [5, 11). *)
Example scan_page_recurring_pattern :
  scan_page 150 80 15 0 (raster_page 120 180 recurring_pixmap) [] =
  Return [run_box 0 (120 # 8) (180 # 12) 5 11 (2, 6)].
Proof. vm_compute. reflexivity. Qed.

(** The drifting bar is cut at row 8, where it is four pixels away from
    row 0 although only one pixel away from row 7; the box has the
    horizontal extent of row 0. *)
Example scan_page_drift :
  scan_page 150 80 15 0 (raster_page 180 150 drift_pixmap) [] =
  Return [run_box 0 (180 # 12) (150 # 10) 0 8 (0, 5)].
Proof. vm_compute. reflexivity. Qed.

End ScannerExamples.

(** ** Fusion: ordering of the result *)

Section Ordering.
Import Redactions.

(** [a <= b] on the key tuples, lexicographically. *)
Definition key_le (a b : Z * Q * Q) : Prop :=
  let '(p1, y1, x1) := a in
  let '(p2, y2, x2) := b in
  p1 < p2 \/ (p1 = p2 /\ ((y1 < y2)%Q \/ ((y1 == y2)%Q /\ (x1 <= x2)%Q))).

(** Consecutive elements are in key order. *)
Definition sorted_by_key (l : list RedactionBox) : Prop :=
  forall (i : nat) a b,
    l !! i = Some a -> l !! S i = Some b -> key_le (sort_key a) (sort_key b).

Lemma Qle_bool_false (a b : Q) : Qle_bool a b = false -> (b < a)%Q.
Proof.
  intros H. apply Qnot_le_lt. intros Hle.
  apply Qle_bool_iff in Hle. congruence.
Qed.

Lemma Qeq_bool_false (a b : Q) : Qeq_bool a b = false -> ~ (a == b)%Q.
Proof. intros H E. apply Qeq_bool_iff in E. congruence. Qed.

Lemma key_lt_true a b : key_lt a b = true -> key_le a b.
Proof.
  destruct a as [[p1 y1] x1], b as [[p2 y2] x2]. unfold key_lt, key_le.
  destruct (Z.eqb_spec p1 p2) as [->|Hp]; simpl.
  - destruct (Qeq_bool y1 y2) eqn:Ey; simpl.
    + apply Qeq_bool_iff in Ey.
      destruct (Qeq_bool x1 x2) eqn:Ex; simpl; [discriminate|].
      intros H. apply negb_true_iff, Qle_bool_false in H.
      right. split; [reflexivity|]. right. split; [exact Ey|].
      apply Qlt_le_weak. exact H.
    + intros H. apply negb_true_iff, Qle_bool_false in H. auto.
  - intros H. apply Z.ltb_lt in H. auto.
Qed.

Lemma key_lt_false a b : key_lt a b = false -> key_le b a.
Proof.
  destruct a as [[p1 y1] x1], b as [[p2 y2] x2]. unfold key_lt, key_le.
  destruct (Z.eqb_spec p1 p2) as [->|Hp]; simpl.
  - destruct (Qeq_bool y1 y2) eqn:Ey; simpl.
    + apply Qeq_bool_iff in Ey.
      destruct (Qeq_bool x1 x2) eqn:Ex; simpl.
      * apply Qeq_bool_iff in Ex. intros _.
        right. split; [reflexivity|]. right. split; [symmetry; exact Ey|].
        rewrite Ex. apply Qle_refl.
      * intros H. apply negb_false_iff, Qle_bool_iff in H.
        right. split; [reflexivity|]. right. split; [symmetry; exact Ey|exact H].
    + intros H. apply negb_false_iff, Qle_bool_iff in H.
      apply Qeq_bool_false in Ey.
      right. split; [reflexivity|]. left.
      apply Qle_lt_or_eq in H as [H | H]; [exact H|].
      exfalso. apply Ey. symmetry. exact H.
  - intros H. apply Z.ltb_ge in H. left. lia.
Qed.

(** Sortedness as a property of each element and its successor. *)
Inductive chain : list RedactionBox -> Prop :=
| chain_nil : chain []
| chain_one a : chain [a]
| chain_cons a b l :
    key_le (sort_key a) (sort_key b) -> chain (b :: l) -> chain (a :: b :: l).

Lemma insert_by_chain x l :
  chain l -> chain (insert_by key_lt sort_key x l).
Proof.
  induction 1 as [|a|a b l Hab Hbl IH]; cbn [insert_by].
  - constructor.
  - destruct (key_lt (sort_key x) (sort_key a)) eqn:E.
    + constructor; [apply key_lt_true, E | constructor].
    + constructor; [apply key_lt_false, E | constructor].
  - destruct (key_lt (sort_key x) (sort_key a)) eqn:E.
    + constructor; [apply key_lt_true, E|]. constructor; assumption.
    + cbn [insert_by] in IH.
      destruct (key_lt (sort_key x) (sort_key b)) eqn:E'.
      * constructor; [apply key_lt_false, E | exact IH].
      * constructor; [exact Hab | exact IH].
Qed.

Lemma sort_by_chain l : chain (sort_by key_lt sort_key l).
Proof.
  unfold sort_by. generalize (chain_nil). generalize (@nil RedactionBox) as acc.
  induction l as [|x l IH]; intros acc Hacc; simpl; [exact Hacc|].
  apply IH, insert_by_chain, Hacc.
Qed.

Lemma chain_sorted_by_key l : chain l -> sorted_by_key l.
Proof.
  induction 1 as [|a|a b l Hab Hbl IH]; intros i x y Hx Hy.
  - destruct i; discriminate.
  - destruct i; discriminate.
  - destruct i as [|i].
    + simpl in Hx, Hy. injection Hx as <-. injection Hy as <-. exact Hab.
    + apply (IH i); assumption.
Qed.

End Ordering.

(** ** Running a detection or extraction call *)

Section Calls.
Import Redactions SpanExtractor.

(** The three detectors, run one after the other on an open document. *)
Definition detect (doc : Document) : result (list RedactionBox) :=
  results ← _find_annotation_redactions doc;
  vector ← _find_vector_redactions doc;
  image ← _find_image_redactions doc 150 80 5 15;
  mret ((results ++ vector) ++ image).

(** The text runs of all pages, turned into records. *)
Definition collect (doc : Document) : result (list TextSpan) :=
  pages ← doc_pages doc;
  mret (flat_map (fun '(page_num, pg) => page_records page_num pg)
                 (enumerate pages)).

Definition opened (w : World) : World :=
  {| next_handle := S (next_handle w);
     open_handles := {[next_handle w]} ∪ open_handles w |}.

Definition closed (h : nat) (w : World) : World :=
  {| next_handle := next_handle w;
     open_handles := open_handles w ∖ {[h]} |}.

Lemma find_redactions_run parse pdf_bytes w :
  find_redactions parse pdf_bytes w =
  match parse pdf_bytes with
  | Raise e => (w, Raise e)
  | Return pages =>
      match detect {| doc_handle := next_handle w; doc_pages := pages |} with
      | Raise e => (opened w, Raise e)
      | Return results =>
          (closed (next_handle w) (opened w),
           Return (sort_by key_lt sort_key results))
      end
  end.
Proof.
  unfold find_redactions, detect, mbind, M_bind, m_bind, fitz_open, lift.
  destruct (parse pdf_bytes) as [pages|e]; [|reflexivity].
  fold (opened w).
  set (doc := {| doc_handle := next_handle w; doc_pages := pages |}).
  destruct (_find_annotation_redactions doc) as [a|e]; [|reflexivity].
  destruct (_find_vector_redactions doc) as [v|e]; [|reflexivity].
  destruct (_find_image_redactions doc 150 80 5 15) as [i|e]; reflexivity.
Qed.

Lemma extract_font_info_run parse pdf_bytes w :
  extract_font_info parse pdf_bytes w =
  match parse pdf_bytes with
  | Raise e => (w, Raise e)
  | Return pages =>
      match collect {| doc_handle := next_handle w; doc_pages := pages |} with
      | Raise e => (opened w, Raise e)
      | Return spans => (closed (next_handle w) (opened w), Return spans)
      end
  end.
Proof.
  unfold extract_font_info, collect, mbind, M_bind, m_bind, fitz_open, lift.
  destruct (parse pdf_bytes) as [pages|e]; [|reflexivity].
  fold (opened w). cbn [doc_pages].
  destruct pages as [pages|e]; reflexivity.
Qed.

Lemma closed_opened w :
  next_handle w ∉ open_handles w ->
  open_handles (closed (next_handle w) (opened w)) = open_handles w.
Proof.
  intros H. unfold closed, opened. cbn. apply set_eq. intros x.
  rewrite elem_of_difference, elem_of_union, !elem_of_singleton. split.
  - intros [[-> | Hx] Hne]; [contradiction | exact Hx].
  - intros Hx. split; [right; exact Hx | intros ->; contradiction].
Qed.

Lemma opened_not_closed w :
  next_handle w ∉ open_handles w ->
  next_handle w ∈ open_handles (opened w) /\
  open_handles (opened w) <> open_handles w.
Proof.
  intros H. unfold opened. cbn.
  assert (Hin : next_handle w ∈ ({[next_handle w]} ∪ open_handles w : gset nat))
    by (apply elem_of_union_l, elem_of_singleton; reflexivity).
  split; [exact Hin|].
  intros E. apply H. rewrite <- E. exact Hin.
Qed.

(** C5. The list [find_redactions] returns is in ascending order of
    (page, top edge, left edge): each box and its successor are in
    lexicographic key order. *)
Theorem find_redactions_sorted parse pdf_bytes w w' boxes :
  find_redactions parse pdf_bytes w = (w', Return boxes) ->
  forall (i : nat) a b,
    boxes !! i = Some a -> boxes !! S i = Some b ->
    key_le (Redactions.page a, bbox1 a, bbox0 a)
           (Redactions.page b, bbox1 b, bbox0 b).
Proof.
  rewrite find_redactions_run. intros H.
  destruct (parse pdf_bytes) as [pages|e]; [|discriminate].
  destruct (detect _) as [results|e]; [|discriminate].
  injection H as _ <-.
  apply chain_sorted_by_key, sort_by_chain.
Qed.

(** C7, amended. A call that returns normally has closed the handle it
    opened: the set of open handles is what it was before the call. A call
    that raises because the bytes cannot be opened never acquired a
    handle. A call that raises after the document was opened does not
    reach [doc.close()]: the exception propagates with the handle still
    open. *)
Theorem handle_released_on_return parse pdf_bytes w :
  next_handle w ∉ open_handles w ->
  (forall w' boxes,
      find_redactions parse pdf_bytes w = (w', Return boxes) ->
      open_handles w' = open_handles w)
  /\ (forall w' spans,
         extract_font_info parse pdf_bytes w = (w', Return spans) ->
         open_handles w' = open_handles w)
  /\ (forall w' e,
         find_redactions parse pdf_bytes w = (w', Raise e) ->
         (parse pdf_bytes = Raise e /\ w' = w) \/
         (exists pages, parse pdf_bytes = Return pages /\
                        next_handle w ∈ open_handles w' /\
                        open_handles w' <> open_handles w))
  /\ (forall w' e,
         extract_font_info parse pdf_bytes w = (w', Raise e) ->
         (parse pdf_bytes = Raise e /\ w' = w) \/
         (exists pages, parse pdf_bytes = Return pages /\
                        next_handle w ∈ open_handles w' /\
                        open_handles w' <> open_handles w)).
Proof.
  intros Hfresh. repeat split.
  - intros w' boxes. rewrite find_redactions_run.
    destruct (parse pdf_bytes) as [pages|e]; [|discriminate].
    destruct (detect _) as [results|e]; [|discriminate].
    intros [= <- _]. apply closed_opened, Hfresh.
  - intros w' spans. rewrite extract_font_info_run.
    destruct (parse pdf_bytes) as [pages|e]; [|discriminate].
    destruct (collect _) as [results|e]; [|discriminate].
    intros [= <- _]. apply closed_opened, Hfresh.
  - intros w' e. rewrite find_redactions_run.
    destruct (parse pdf_bytes) as [pages|e']; [|intros [= <- <-]; auto].
    destruct (detect _) as [results|e']; [discriminate|].
    intros [= <- _]. right. exists pages. split; [reflexivity|].
    apply opened_not_closed, Hfresh.
  - intros w' e. rewrite extract_font_info_run.
    destruct (parse pdf_bytes) as [pages|e']; [|intros [= <- <-]; auto].
    destruct (collect _) as [results|e']; [discriminate|].
    intros [= <- _]. right. exists pages. split; [reflexivity|].
    apply opened_not_closed, Hfresh.
Qed.

End Calls.

(** *** Sample documents *)

Definition no_handles : World := {| next_handle := 0; open_handles := ∅ |}.

(** A password-protected file: it opens, but loading a page raises. *)
Definition encrypted_pdf : Parser :=
  fun _ => Return (Raise (ValueError "document closed or encrypted")).

Definition white_pixmap : Pixmap := raster 4 [[]; []; []].

Definition black_rect (r : Rect) : Drawing :=
  {| drawing_fill := Some [0; 0; 0]%Q; drawing_rect := r |}.

(** Two pages, each with two filled black rectangles, the lower one
    drawn first. *)
Definition two_rect_page : Page :=
  {| page_rect := mkRect 0 0 612 792;
     page_annots := [];
     page_drawings := [ black_rect (mkRect 50 200 150 215);
                        black_rect (mkRect 50 100 150 115) ];
     page_pixmap := fun _ => Return white_pixmap;
     page_blocks := [] |}.

Definition two_page_pdf : Parser :=
  fun _ => Return (Return [two_rect_page; two_rect_page]).

(** One page with a redaction annotation whose rectangle has no width. *)
Definition empty_annotation_page : Page :=
  {| page_rect := mkRect 0 0 612 792;
     page_annots := [ {| annot_type := (12, "Redact"%string);
                         annot_rect := mkRect 100 100 100 120 |} ];
     page_drawings := [];
     page_pixmap := fun _ => Return white_pixmap;
     page_blocks := [] |}.

Definition empty_annotation_pdf : Parser :=
  fun _ => Return (Return [empty_annotation_page]).

Example find_redactions_two_pages :
  (Redactions.find_redactions two_page_pdf [] no_handles).2 =
  Return [ Redactions.box_of_rect 0 (mkRect 50 100 150 115);
           Redactions.box_of_rect 0 (mkRect 50 200 150 215);
           Redactions.box_of_rect 1 (mkRect 50 100 150 115);
           Redactions.box_of_rect 1 (mkRect 50 200 150 215) ].
Proof. vm_compute. reflexivity. Qed.

Lemma find_redactions_sorted_witness :
  (Redactions.find_redactions two_page_pdf [] no_handles).2 =
  Return [ Redactions.box_of_rect 0 (mkRect 50 100 150 115);
           Redactions.box_of_rect 0 (mkRect 50 200 150 215);
           Redactions.box_of_rect 1 (mkRect 50 100 150 115);
           Redactions.box_of_rect 1 (mkRect 50 200 150 215) ] /\
  key_le (0, 100%Q, 50%Q) (0, 200%Q, 50%Q) /\
  key_le (0, 200%Q, 50%Q) (1, 100%Q, 50%Q) /\
  key_le (1, 100%Q, 50%Q) (1, 200%Q, 50%Q).
Proof.
  assert (E : Redactions.find_redactions two_page_pdf [] no_handles =
              ((Redactions.find_redactions two_page_pdf [] no_handles).1,
               Return [ Redactions.box_of_rect 0 (mkRect 50 100 150 115);
                        Redactions.box_of_rect 0 (mkRect 50 200 150 215);
                        Redactions.box_of_rect 1 (mkRect 50 100 150 115);
                        Redactions.box_of_rect 1 (mkRect 50 200 150 215) ])).
  { rewrite (surjective_pairing
               (Redactions.find_redactions two_page_pdf [] no_handles)) at 1.
    apply pair_equal_spec. split; [reflexivity | vm_compute; reflexivity]. }
  split; [rewrite E; reflexivity|].
  pose proof (find_redactions_sorted two_page_pdf [] no_handles _ _ E) as H.
  repeat split.
  - exact (H 0%nat _ _ eq_refl eq_refl).
  - exact (H 1%nat _ _ eq_refl eq_refl).
  - exact (H 2%nat _ _ eq_refl eq_refl).
Defined.

Lemma handle_released_on_return_witness :
  open_handles (Redactions.find_redactions two_page_pdf [] no_handles).1 =
  open_handles no_handles.
Proof.
  destruct (handle_released_on_return two_page_pdf [] no_handles) as [H _].
  - unfold no_handles. cbn. apply not_elem_of_empty.
  - apply (H _ (Redactions.sort_by Redactions.key_lt Redactions.sort_key
                  (Redactions.box_of_rect 0 (mkRect 50 200 150 215) ::
                   Redactions.box_of_rect 0 (mkRect 50 100 150 115) ::
                   Redactions.box_of_rect 1 (mkRect 50 200 150 215) ::
                   Redactions.box_of_rect 1 (mkRect 50 100 150 115) :: []))).
    rewrite (surjective_pairing (Redactions.find_redactions two_page_pdf [] no_handles)) at 1.
    apply pair_equal_spec. split; [reflexivity | vm_compute; reflexivity].
Defined.

(** C7, as stated, fails: on a password-protected file both calls raise
    after the document was opened and leave handle 0 open. *)
Lemma handle_left_open_on_failure :
  ~ (forall parse pdf_bytes w,
        next_handle w ∉ open_handles w ->
        open_handles (Redactions.find_redactions parse pdf_bytes w).1 =
        open_handles w)
  /\
  ~ (forall parse pdf_bytes w,
        next_handle w ∉ open_handles w ->
        open_handles (SpanExtractor.extract_font_info parse pdf_bytes w).1 =
        open_handles w).
Proof.
  assert (Hfresh : next_handle no_handles ∉ open_handles no_handles)
    by apply not_elem_of_empty.
  split; intros H; specialize (H encrypted_pdf [] no_handles Hfresh).
  - rewrite find_redactions_run in H. cbn in H.
    apply (not_elem_of_empty (C := gset nat) 0%nat).
    rewrite <- H. apply elem_of_union_l, elem_of_singleton. reflexivity.
  - rewrite extract_font_info_run in H. cbn in H.
    apply (not_elem_of_empty (C := gset nat) 0%nat).
    rewrite <- H. apply elem_of_union_l, elem_of_singleton. reflexivity.
Qed.

Example find_redactions_encrypted :
  (Redactions.find_redactions encrypted_pdf [] no_handles).2 =
  Raise (ValueError "document closed or encrypted") /\
  elements (open_handles (Redactions.find_redactions encrypted_pdf [] no_handles).1)
  = [0%nat].
Proof. split; vm_compute; reflexivity. Qed.

(** C2 at a redaction annotation with an empty rectangle: the box is
    returned as it is, with width 0. *)
Theorem find_redactions_empty_annotation :
  (Redactions.find_redactions empty_annotation_pdf [] no_handles).2 =
  Return [Redactions.box_of_rect 0 (mkRect 100 100 100 120)] /\
  (Redactions.width (Redactions.box_of_rect 0 (mkRect 100 100 100 120)) == 0)%Q /\
  ~ (0 < Redactions.width (Redactions.box_of_rect 0 (mkRect 100 100 100 120)))%Q.
Proof.
  split; [vm_compute; reflexivity|]. split; [reflexivity|].
  intros H. vm_compute in H. discriminate H.
Qed.

(** ** The span extractor keeps each run's text as it is *)

Section TextVerbatim.
Import SpanExtractor.

(** A text that is not empty once trimmed. *)
Definition nonblank (t : string) : Prop := str_bool (strip t) = true.

#[local] Instance nonblank_dec (t : string) : Decision (nonblank t).
Proof. unfold nonblank. apply _. Defined.




Lemma map_flat_map {A B C} (g : B -> C) (f : A -> list B) (l : list A) :
  map g (flat_map f l) = flat_map (fun a => map g (f a)) l.
Proof.
  induction l as [|a l IH]; simpl; [reflexivity|].
  rewrite map_app, IH. reflexivity.
Qed.








End TextVerbatim.

(** One page with a padded run, a blank run, an image block and a plain
    run. *)
Definition sample_text_page : Page :=
  {| page_rect := mkRect 0 0 612 792;
     page_annots := [];
     page_drawings := [];
     page_pixmap := fun _ => Return white_pixmap;
     page_blocks :=
       [ {| block_type := 0;
            block_lines :=
              [ {| line_spans :=
                     [ mkSpan "  Hello " "Helvetica" (1199 # 100) 0 0 (50, 40, 90, 52)%Q;
                       mkSpan "   " "Helvetica" 12 0 0 (90, 40, 99, 52)%Q ] |} ] |};
         {| block_type := 1; block_lines := [] |};
         {| block_type := 0;
            block_lines :=
              [ {| line_spans :=
                     [ mkSpan "World" "Courier-Bold" 14 24 0
                              (50, 90, 92, 104)%Q ] |} ] |} ] |}.

Definition sample_text_pdf : Parser := fun _ => Return (Return [sample_text_page]).

Example extract_font_info_sample :
  (SpanExtractor.extract_font_info sample_text_pdf [] no_handles).2 =
  Return
    [ SpanExtractor.mkTextSpan "  Hello "
        (SpanExtractor.mkFontInfo "Helvetica" 12 false false false false 0
                                  (Some Helvetica))
        0 (50, 40, 90, 52)%Q;
      SpanExtractor.mkTextSpan "World"
        (SpanExtractor.mkFontInfo "Courier-Bold" 14 true false true false 0
                                  (Some CourierNew))
        0 (50, 90, 92, 104)%Q ].
Proof. vm_compute. reflexivity. Qed.


(** ** Size filters of the vector and raster detectors *)

Section SizeFilters.
Import Redactions.

Lemma clamp0_ge (c d : Q) :
  (0 < c)%Q -> Qle_bool c (clamp0 d) = true -> (c <= d)%Q.
Proof.
  intros Hc. unfold clamp0. destruct (Qle_bool 0 d) eqn:E.
  - apply Qle_bool_iff.
  - intros H. apply Qle_bool_iff in H. exfalso.
    apply (Qlt_irrefl 0). eapply Qlt_le_trans; eassumption.
Qed.

(** A vector box is at least 15 wide and 5 high. *)
Lemma drawing_boxes_min_size page_num pg b :
  In b (drawing_boxes page_num pg) ->
  (15 <= width b)%Q /\ (5 <= height b)%Q.
Proof.
  unfold drawing_boxes. rewrite in_flat_map. intros (d & _ & Hb).
  destruct (drawing_fill d) as [fill|]; [|contradiction].
  destruct (forallb _ fill); [|contradiction].
  destruct (Qle_bool 15 (Rect_width (drawing_rect d))) eqn:Ew; [|contradiction].
  destruct (Qle_bool 5 (Rect_height (drawing_rect d))) eqn:Eh; [|contradiction].
  destruct Hb as [<- | []].
  split; [apply (clamp0_ge 15) | apply (clamp0_ge 5)];
    solve [reflexivity | assumption].
Qed.

(** A raster box that is returned is at least [min_height_pt] high. *)
Lemma image_boxes_min_height doc dpi dark_threshold min_height_pt min_width_pt l b :
  _find_image_redactions doc dpi dark_threshold min_height_pt min_width_pt
  = Return l ->
  b ∈ l -> (min_height_pt <= height b)%Q.
Proof.
  unfold _find_image_redactions. destruct (doc_pages doc) as [pages|e];
    [|discriminate].
  cbn [mbind result_bind rbind].
  destruct (scan_pages _ _ _ _ _) as [results|e]; [|discriminate].
  intros [= <-] Hb. apply list_elem_of_filter in Hb as [Hb _].
  apply Qle_bool_iff, Hb.
Qed.

(** The six-row bar of [recurring_pixmap] on a page 6 points high: the
    scan closes it into a box ([6 >= min_rows]), and the height filter of
    the detector then drops the box (3 points high). *)
Example find_image_redactions_height_filter :
  scan_page 150 80 15 0 (raster_page 120 6 recurring_pixmap) [] =
  Return [run_box 0 (120 # 8) (6 # 12) 5 11 (2, 6)] /\
  _find_image_redactions
    {| doc_handle := 0;
       doc_pages := Return [raster_page 120 6 recurring_pixmap] |}
    150 80 5 15 = Return [].
Proof. split; vm_compute; reflexivity. Qed.

End SizeFilters.

(** ** Dark runs of one raster row *)

Section DarkRuns.
Import Redactions.

Variable samples : list Z.
Variables offset threshold min_width : Z.

(** Pixel [x] of the row is readable and below the threshold. *)
Definition dark (x : Z) : Prop :=
  exists v, getitem samples (offset + x) = Return v /\ v < threshold.

(** Pixel [x] of the row is readable and not below the threshold. *)
Definition light (x : Z) : Prop :=
  exists v, getitem samples (offset + x) = Return v /\ threshold <= v.

(** [s, e) is a stretch of dark pixels that is closed on both sides: it
    starts at the row's first pixel or after a light one, and a light pixel
    follows it. *)
Definition closed_stretch (s e : Z) : Prop :=
  0 <= s /\ s < e /\ (forall x, s <= x < e -> dark x) /\
  (0 < s -> light (s - 1)) /\ light e.

(** [s, e) is a maximal stretch of dark pixels of a row [width] wide. *)
Definition stretch (width s e : Z) : Prop :=
  0 <= s /\ s < e /\ e <= width /\ (forall x, s <= x < e -> dark x) /\
  (0 < s -> light (s - 1)) /\ (e < width -> light e).

(** Runs in ascending order, each non-empty, none starting before [lo],
    none ending after [hi], with at least one pixel between two runs. *)
Fixpoint separated (lo : Z) (rs : list (Z * Z)) (hi : Z) : Prop :=
  match rs with
  | [] => True
  | (s, e) :: rest => lo <= s /\ s < e /\ e <= hi /\ separated (e + 1) rest hi
  end.

(** What holds of the loop state once the first [k] pixels are read. *)
Record loop_inv (k : nat) (st : RunState) : Prop := mk_loop_inv {
  inv_separated :
    separated 0 (runs st) (if in_run st then start st - 1 else Z.of_nat k - 1);
  inv_sound : forall s e,
      (s, e) ∈ runs st ->
      closed_stretch s e /\ e < Z.of_nat k /\ min_width <= e - s;
  inv_complete : forall s e,
      closed_stretch s e -> e < Z.of_nat k -> min_width <= e - s ->
      (s, e) ∈ runs st;
  inv_open :
    in_run st = true ->
    0 <= start st < Z.of_nat k /\
    (forall x, start st <= x < Z.of_nat k -> dark x) /\
    (0 < start st -> light (start st - 1));
  inv_closed :
    in_run st = false -> (0 < k)%nat -> light (Z.of_nat k - 1)
}.

Lemma dark_light_excl x : dark x -> light x -> False.
Proof. intros (v & Hv & Hlt) (v' & Hv' & Hge). rewrite Hv in Hv'. injection Hv' as <-. lia. Qed.

Lemma separated_weaken lo rs hi hi' :
  hi <= hi' -> separated lo rs hi -> separated lo rs hi'.
Proof.
  intros Hle. revert lo. induction rs as [|[s e] rs IH]; intros lo; simpl; [auto|].
  intros (H1 & H2 & H3 & H4). repeat split; [lia | lia | lia | auto].
Qed.

Lemma separated_snoc lo rs hi s e hi' :
  separated lo rs hi -> lo <= s -> hi < s -> s < e -> e <= hi' ->
  separated lo (rs ++ [(s, e)]) hi'.
Proof.
  revert lo. induction rs as [|[s0 e0] rs IH]; intros lo; simpl.
  - intros _ Hlo _ Hse He. repeat split; lia.
  - intros (H1 & H2 & H3 & H4) Hlo Hhi Hse He.
    repeat split; [lia | lia | lia |].
    apply IH; [exact H4 | lia | lia | lia | lia].
Qed.

Lemma loop_inv_init : loop_inv 0 {| runs := []; in_run := false; start := 0 |}.
Proof.
  constructor; cbn.
  - exact I.
  - intros s e H. inversion H.
  - intros s e (H1 & H2 & _) He _. lia.
  - discriminate.
  - intros _ H. lia.
Qed.

(** Two closed-on-the-left dark stretches that reach the same pixel start
    at the same pixel. *)
Lemma stretch_start_unique s s' e :
  0 <= s -> 0 <= s' -> s < e -> s' < e ->
  (forall x, s <= x < e -> dark x) -> (forall x, s' <= x < e -> dark x) ->
  (0 < s -> light (s - 1)) -> (0 < s' -> light (s' - 1)) ->
  s = s'.
Proof.
  intros H0 H0' Hse Hse' Hd Hd' Hl Hl'.
  destruct (Z.lt_trichotomy s s') as [Hlt | [Heq | Hgt]]; [|exact Heq|].
  - exfalso. apply (dark_light_excl (s' - 1)); [apply Hd; lia | apply Hl'; lia].
  - exfalso. apply (dark_light_excl (s - 1)); [apply Hd'; lia | apply Hl; lia].
Qed.

Lemma closed_at_dark k s e :
  dark (Z.of_nat k) -> closed_stretch s e -> e < Z.of_nat (S k) -> e < Z.of_nat k.
Proof.
  intros Hd (_ & _ & _ & _ & Hl) He.
  destruct (Z.eq_dec e (Z.of_nat k)) as [->|Hne]; [|lia].
  exfalso. exact (dark_light_excl _ Hd Hl).
Qed.

Lemma dark_step_inv k st st' :
  loop_inv k st ->
  dark_step samples offset threshold min_width st (Z.of_nat k) = Return st' ->
  loop_inv (S k) st'.
Proof.
  intros [Hsep Hsound Hcompl Hopen Hclosed]. unfold dark_step.
  destruct (getitem samples (offset + Z.of_nat k)) as [v|e] eqn:Eg; [|discriminate].
  cbn [mbind result_bind rbind].
  destruct (Z.ltb_spec v threshold) as [Hv|Hv].
  - assert (Hdark : dark (Z.of_nat k)) by (exists v; auto).
    destruct (in_run st) eqn:Ein; cbn [negb]; intros [= <-].
    + destruct (Hopen eq_refl) as (Hs & Hd & Hl).
      constructor; rewrite ?Ein.
      * exact Hsep.
      * intros s e Hin. destruct (Hsound s e Hin) as (? & ? & ?).
        split; [assumption | split; [lia | assumption]].
      * intros s e Hc He Hm. apply Hcompl; [exact Hc | | exact Hm].
        eapply closed_at_dark; eassumption.
      * intros _. split; [lia|]. split; [|exact Hl].
        intros x Hx. destruct (Z.eq_dec x (Z.of_nat k)) as [->|]; [exact Hdark|].
        apply Hd. lia.
      * discriminate.
    + constructor; cbn [runs in_run start].
      * exact Hsep.
      * intros s e Hin. destruct (Hsound s e Hin) as (? & ? & ?).
        split; [assumption | split; [lia | assumption]].
      * intros s e Hc He Hm. apply Hcompl; [exact Hc | | exact Hm].
        eapply closed_at_dark; eassumption.
      * intros _. split; [lia|]. split.
        -- intros x Hx. replace x with (Z.of_nat k) by lia. exact Hdark.
        -- intros Hk. apply Hclosed; [reflexivity | lia].
      * discriminate.
  - assert (Hlight : light (Z.of_nat k)) by (exists v; auto).
    destruct (in_run st) eqn:Ein.
    + destruct (Hopen eq_refl) as (Hs & Hd & Hl).
      destruct (Z.geb_spec (Z.of_nat k - start st) min_width) as [Hw|Hw];
        intros [= <-]; constructor; cbn [runs in_run start].
      * eapply separated_snoc; [exact Hsep | lia | lia | lia | lia].
      * intros s e Hin. apply elem_of_app in Hin as [Hin | Hin].
        -- destruct (Hsound s e Hin) as (? & ? & ?).
           split; [assumption | split; [lia | assumption]].
        -- apply list_elem_of_singleton in Hin. injection Hin as -> ->.
           split; [|split; [lia | lia]].
           repeat split; [lia | lia | exact Hd | exact Hl | exact Hlight].
      * intros s e Hc He Hm. apply elem_of_app.
        destruct (Z.eq_dec e (Z.of_nat k)) as [->|Hne].
        -- right. apply list_elem_of_singleton. f_equal.
           destruct Hc as (H0 & Hse & Hds & Hls & _).
           apply (stretch_start_unique s (start st) (Z.of_nat k));
             solve [lia | assumption].
        -- left. apply Hcompl; [exact Hc | lia | exact Hm].
      * discriminate.
      * intros _ _. replace (Z.of_nat (S k) - 1) with (Z.of_nat k) by lia.
        exact Hlight.
      * eapply separated_weaken; [|exact Hsep]. lia.
      * intros s e Hin. destruct (Hsound s e Hin) as (? & ? & ?).
        split; [assumption | split; [lia | assumption]].
      * intros s e Hc He Hm.
        destruct (Z.eq_dec e (Z.of_nat k)) as [->|Hne].
        -- exfalso. destruct Hc as (H0 & Hse & Hds & Hls & _).
           assert (s = start st)
             by (apply (stretch_start_unique s (start st) (Z.of_nat k));
                 solve [lia | assumption]).
           lia.
        -- apply Hcompl; [exact Hc | lia | exact Hm].
      * discriminate.
      * intros _ _. replace (Z.of_nat (S k) - 1) with (Z.of_nat k) by lia.
        exact Hlight.
    + intros [= <-]. constructor; rewrite ?Ein.
      * eapply separated_weaken; [|exact Hsep]. lia.
      * intros s e Hin. destruct (Hsound s e Hin) as (? & ? & ?).
        split; [assumption | split; [lia | assumption]].
      * intros s e Hc He Hm.
        destruct (Z.eq_dec e (Z.of_nat k)) as [->|Hne].
        -- exfalso. destruct Hc as (H0 & Hse & Hds & _).
           apply (dark_light_excl (Z.of_nat k - 1)); [apply Hds; lia|].
           apply Hclosed; [reflexivity | lia].
        -- apply Hcompl; [exact Hc | lia | exact Hm].
      * discriminate.
      * intros _ _. replace (Z.of_nat (S k) - 1) with (Z.of_nat k) by lia.
        exact Hlight.
Qed.

Lemma dark_loop_inv n k st st' :
  loop_inv k st ->
  dark_loop samples offset threshold min_width (map Z.of_nat (seq k n)) st
  = Return st' ->
  loop_inv (k + n) st'.
Proof.
  revert k st. induction n as [|n IH]; intros k st Hinv; cbn [seq map dark_loop].
  - intros [= <-]. rewrite Nat.add_0_r. exact Hinv.
  - destruct (dark_step samples offset threshold min_width st (Z.of_nat k))
      as [st1|e] eqn:Estep; [|discriminate].
    cbn [mbind result_bind rbind]. intros Hloop.
    replace (k + S n)%nat with (S k + n)%nat by lia.
    apply (IH (S k) st1); [|exact Hloop].
    eapply dark_step_inv; eassumption.
Qed.

Lemma get_dark_runs_spec y width rs :
  offset = y * width ->
  _get_dark_runs samples y width threshold min_width = Return rs ->
  (forall s e, (s, e) ∈ rs <-> stretch width s e /\ min_width <= e - s) /\
  separated 0 rs width.
Proof.
  intros Hoff. unfold _get_dark_runs, range. rewrite <- Hoff.
  destruct (dark_loop samples offset threshold min_width _ _) as [st|e] eqn:El;
    [|discriminate].
  cbn [mbind result_bind rbind].
  apply (dark_loop_inv _ 0%nat) in El; [|apply loop_inv_init].
  destruct El as [Hsep Hsound Hcompl Hopen Hclosed]. cbn [Nat.add] in *.
  assert (HK : Z.of_nat (Z.to_nat width) = Z.max 0 width) by lia.
  destruct (in_run st) eqn:Ein; cbn [andb].
  - destruct (Hopen eq_refl) as (Hs & Hd & Hl).
    destruct (Z.geb_spec (width - start st) min_width) as [Hw|Hw]; intros [= <-].
    + split.
      * intros s e. rewrite elem_of_app, list_elem_of_singleton. split.
        -- intros [Hin | [= -> ->]].
           ++ destruct (Hsound s e Hin) as ((H0 & Hse & Hds & Hls & Hle) & He & Hm).
              split; [|exact Hm].
              repeat split; solve [lia | assumption | intros; assumption].
           ++ split; [|lia].
              repeat split; try lia; try assumption.
              intros x Hx. apply Hd. lia.
        -- intros ((H0 & Hse & Hew & Hds & Hls & Hle) & Hm).
           destruct (Z.eq_dec e width) as [->|Hne].
           ++ right. f_equal.
              apply (stretch_start_unique s (start st) width); try lia; try assumption.
              intros x Hx. apply Hd. lia.
           ++ left. apply Hcompl; [|lia|exact Hm].
              repeat split; try lia; try assumption. apply Hle. lia.
      * eapply separated_snoc; [exact Hsep | lia | lia | lia | lia].
    + split.
      * intros s e. split.
        -- intros Hin.
           destruct (Hsound s e Hin) as ((H0 & Hse & Hds & Hls & Hle) & He & Hm).
           split; [|exact Hm].
           repeat split; solve [lia | assumption | intros; assumption].
        -- intros ((H0 & Hse & Hew & Hds & Hls & Hle) & Hm).
           destruct (Z.eq_dec e width) as [->|Hne].
           ++ exfalso.
              assert (s = start st); [|lia].
              apply (stretch_start_unique s (start st) width); try lia; try assumption.
              intros x Hx. apply Hd. lia.
           ++ apply Hcompl; [|lia|exact Hm].
              repeat split; try lia; try assumption. apply Hle. lia.
      * eapply separated_weaken; [|exact Hsep]. lia.
  - intros [= <-]. split.
    + intros s e. split.
      * intros Hin.
        destruct (Hsound s e Hin) as ((H0 & Hse & Hds & Hls & Hle) & He & Hm).
        split; [|exact Hm].
        repeat split; solve [lia | assumption | intros; assumption].
      * intros ((H0 & Hse & Hew & Hds & Hls & Hle) & Hm).
        destruct (Z.eq_dec e width) as [->|Hne].
        -- exfalso. apply (dark_light_excl (width - 1)); [apply Hds; lia|].
           replace (width - 1) with (Z.of_nat (Z.to_nat width) - 1) by lia.
           apply Hclosed; [reflexivity | lia].
        -- apply Hcompl; [|lia|exact Hm].
           repeat split; try lia; try assumption. apply Hle. lia.
    + destruct (Z.le_gt_cases 0 width) as [Hw|Hw].
      * eapply separated_weaken; [|exact Hsep]. lia.
      * assert (Hnil : runs st = []).
        { destruct (runs st) as [|[s e] rest]; [reflexivity|].
          destruct (Hsound s e) as ((H0 & Hse & _) & He & _); [left|]. lia. }
        rewrite Hnil. exact I.
Qed.


Lemma elem_of_range (n x : Z) : x ∈ range n <-> 0 <= x < n.
Proof.
  unfold range. rewrite list_elem_of_fmap. split.
  - intros (k & -> & Hk). apply list_elem_of_In, in_seq in Hk. lia.
  - intros Hx. exists (Z.to_nat x). split; [lia|].
    apply list_elem_of_In, in_seq. lia.
Qed.

Lemma getitem_in_range i :
  0 <= i < Z.of_nat (length samples) -> exists v, getitem samples i = Return v.
Proof.
  intros Hi. unfold getitem.
  destruct (Z.ltb_spec i 0) as [?|_]; [lia|].
  destruct (Z.ltb_spec i 0) as [?|_]; [lia|].
  destruct (lookup_lt_is_Some_2 samples (Z.to_nat i)) as [v Hv]; [lia|].
  rewrite Hv. eauto.
Qed.

Lemma getitem_past_end i :
  Z.of_nat (length samples) <= i -> getitem samples i = Raise IndexError.
Proof.
  intros Hi. unfold getitem.
  destruct (Z.ltb_spec i 0) as [?|_]; [lia|].
  destruct (Z.ltb_spec i 0) as [?|_]; [lia|].
  rewrite (lookup_ge_None_2 samples (Z.to_nat i)) by lia. reflexivity.
Qed.

Lemma getitem_raise i e : getitem samples i = Raise e -> e = IndexError.
Proof.
  unfold getitem. destruct (_ <? 0); [|destruct (samples !! _)];
    congruence.
Qed.

Lemma dark_step_outcome st x :
  match getitem samples (offset + x) with
  | Return _ => exists st', dark_step samples offset threshold min_width st x = Return st'
  | Raise _ => dark_step samples offset threshold min_width st x = Raise IndexError
  end.
Proof.
  unfold dark_step. destruct (getitem samples (offset + x)) as [v|e] eqn:Eg.
  - cbn [mbind result_bind rbind].
    destruct (v <? threshold), (in_run st); cbn [negb]; eauto.
  - apply getitem_raise in Eg. subst. reflexivity.
Qed.

Lemma dark_loop_returns xs st :
  Forall (fun x => 0 <= offset + x < Z.of_nat (length samples)) xs ->
  exists st', dark_loop samples offset threshold min_width xs st = Return st'.
Proof.
  intros H. revert st. induction H as [|x xs Hx _ IH]; intros st; cbn [dark_loop].
  - eauto.
  - pose proof (dark_step_outcome st x) as Hs.
    destruct (getitem_in_range _ Hx) as [v Hv]. rewrite Hv in Hs.
    destruct Hs as [st1 ->]. cbn [mbind result_bind rbind]. apply IH.
Qed.

Lemma dark_loop_raises xs st x :
  x ∈ xs -> Z.of_nat (length samples) <= offset + x ->
  dark_loop samples offset threshold min_width xs st = Raise IndexError.
Proof.
  intros Hin Hx. revert st. induction xs as [|h xs IH]; intros st.
  - inversion Hin.
  - cbn [dark_loop]. pose proof (dark_step_outcome st h) as Hs.
    destruct (getitem samples (offset + h)) as [v|e] eqn:Eg.
    + destruct Hs as [st1 ->]. cbn [mbind result_bind rbind].
      apply IH. apply elem_of_cons in Hin as [-> | Hin]; [|exact Hin].
      rewrite getitem_past_end in Eg by exact Hx. discriminate.
    + rewrite Hs. reflexivity.
Qed.

End DarkRuns.

Section DarkRunsContract.
Import Redactions.

Lemma get_dark_runs_in_buffer samples y width threshold min_width :
  0 <= y -> 0 <= width ->
  (y + 1) * width <= Z.of_nat (length samples) ->
  exists rs, _get_dark_runs samples y width threshold min_width = Return rs.
Proof.
  intros Hy Hw Hlen. unfold _get_dark_runs.
  destruct (dark_loop_returns samples (y * width) threshold min_width (range width)
              {| runs := []; in_run := false; start := 0 |}) as [st ->].
  - apply Forall_forall. intros x Hx. apply elem_of_range in Hx. nia.
  - cbn [mbind result_bind rbind]. destruct (_ && _); eauto.
Qed.

Lemma get_dark_runs_past_buffer samples y width threshold min_width :
  0 <= y -> 0 < width ->
  Z.of_nat (length samples) < (y + 1) * width ->
  _get_dark_runs samples y width threshold min_width = Raise IndexError.
Proof.
  intros Hy Hw Hlen. unfold _get_dark_runs.
  rewrite (dark_loop_raises samples (y * width) threshold min_width (range width)
             _ (width - 1)); [reflexivity | apply elem_of_range; lia | lia].
Qed.

(** X1. When [_get_dark_runs] returns, the runs it lists are exactly the
    maximal stretches of dark pixels of row [y] that are at least
    [min_width] pixels long: every pixel of a listed run is below the
    threshold, the pixel before it and the pixel after it (when inside the
    row) are not, and no such stretch is left out. *)
Theorem get_dark_runs_maximal_stretches samples y width threshold min_width rs :
  _get_dark_runs samples y width threshold min_width = Return rs ->
  forall s e,
    (s, e) ∈ rs <->
    stretch samples (y * width) threshold width s e /\ min_width <= e - s.
Proof.
  intros H. apply (get_dark_runs_spec samples (y * width) threshold min_width
                     y width rs eq_refl H).
Qed.

(** X2. The runs of a row come in ascending order and do not touch: each
    run is non-empty and lies within [0, width), and the next run starts
    at least one pixel after the previous one ends. *)
Theorem get_dark_runs_separated samples y width threshold min_width rs :
  _get_dark_runs samples y width threshold min_width = Return rs ->
  separated 0 rs width.
Proof.
  intros H. apply (get_dark_runs_spec samples (y * width) threshold min_width
                     y width rs eq_refl H).
Qed.

(** X3. For a row index [y >= 0] and a positive width, [_get_dark_runs]
    returns when the sample buffer holds the whole row
    ([(y + 1) * width <= len(samples)]) and raises [IndexError]
    otherwise. *)
Theorem get_dark_runs_index_error samples y width threshold min_width :
  0 <= y -> 0 < width ->
  if (y + 1) * width <=? Z.of_nat (length samples)
  then exists rs, _get_dark_runs samples y width threshold min_width = Return rs
  else _get_dark_runs samples y width threshold min_width = Raise IndexError.
Proof.
  intros Hy Hw. destruct (Z.leb_spec ((y + 1) * width) (Z.of_nat (length samples))).
  - apply get_dark_runs_in_buffer; lia.
  - apply get_dark_runs_past_buffer; lia.
Qed.

End DarkRunsContract.

(** A row with two bars, the second touching the right edge, and a one
    pixel speck. *)
Definition two_bar_row : list Z := raster_row 12 [(1, 4); (6, 7); (9, 12)].

Example get_dark_runs_two_bars :
  Redactions._get_dark_runs two_bar_row 0 12 80 2 = Return [(1, 4); (9, 12)] /\
  Redactions._get_dark_runs two_bar_row 0 12 80 1 = Return [(1, 4); (6, 7); (9, 12)] /\
  Redactions._get_dark_runs two_bar_row 0 12 80 4 = Return [].
Proof. repeat split; vm_compute; reflexivity. Qed.

Lemma get_dark_runs_maximal_stretches_witness :
  (9, 12) ∈ [(1, 4); (9, 12)] <->
  stretch two_bar_row (0 * 12) 80 12 9 12 /\ 2 <= 12 - 9.
Proof.
  apply (get_dark_runs_maximal_stretches two_bar_row 0 12 80 2 [(1, 4); (9, 12)]).
  vm_compute. reflexivity.
Defined.

Lemma get_dark_runs_separated_witness :
  separated 0 [(1, 4); (9, 12)] 12.
Proof.
  apply (get_dark_runs_separated two_bar_row 0 12 80 2 [(1, 4); (9, 12)]).
  vm_compute. reflexivity.
Defined.

Lemma get_dark_runs_index_error_witness :
  (exists rs, Redactions._get_dark_runs two_bar_row 0 12 80 2 = Return rs) /\
  Redactions._get_dark_runs two_bar_row 1 12 80 2 = Raise IndexError.
Proof.
  split.
  - exact (get_dark_runs_index_error two_bar_row 0 12 80 2 ltac:(lia) ltac:(lia)).
  - exact (get_dark_runs_index_error two_bar_row 1 12 80 2 ltac:(lia) ltac:(lia)).
Defined.

(** ** Comparing two run sets *)

Section RunsMatch.
Import Redactions.

Lemma close_enough_sym t ra rb : close_enough t (ra, rb) = close_enough t (rb, ra).
Proof.
  unfold close_enough.
  rewrite <- (Z.abs_opp (ra.1 - rb.1)), <- (Z.abs_opp (ra.2 - rb.2)).
  replace (- (ra.1 - rb.1)) with (rb.1 - ra.1) by lia.
  replace (- (ra.2 - rb.2)) with (rb.2 - ra.2) by lia.
  reflexivity.
Qed.

Lemma forallb_zip_sym t (a b : list (Z * Z)) :
  forallb (close_enough t) (zip a b) = forallb (close_enough t) (zip b a).
Proof.
  revert b. induction a as [|ra a IH]; intros [|rb b]; cbn; try reflexivity.
  rewrite IH. f_equal. apply close_enough_sym.
Qed.

Lemma runs_match_sym a b t : _runs_match a b t = _runs_match b a t.
Proof.
  unfold _runs_match. rewrite (Nat.eqb_sym (length b) (length a)).
  destruct (length a =? length b)%nat eqn:E; cbn [negb orb]; [|reflexivity].
  apply Nat.eqb_eq in E. rewrite <- E.
  destruct (0 <? length a)%nat; cbn [negb]; [|reflexivity].
  apply forallb_zip_sym.
Qed.

Lemma runs_match_nil_l b t : _runs_match [] b t = false.
Proof. unfold _runs_match. cbn. rewrite orb_true_r. reflexivity. Qed.

Lemma runs_match_nil_r a t : _runs_match a [] t = false.
Proof. rewrite runs_match_sym. apply runs_match_nil_l. Qed.

Lemma runs_match_refl a t : 0 <= t -> a <> [] -> _runs_match a a t = true.
Proof.
  intros Ht Ha. unfold _runs_match. rewrite Nat.eqb_refl.
  destruct a as [|r a]; [congruence|]. cbn [length Nat.ltb Nat.leb negb orb].
  generalize (r :: a). intros l. induction l as [|x l IH]; [reflexivity|].
  cbn. rewrite IH, !Z.sub_diag. change (Z.abs 0) with 0.
  rewrite (proj2 (Z.leb_le 0 t) Ht). reflexivity.
Qed.

Lemma runs_match_mono a b t t' :
  t <= t' -> _runs_match a b t = true -> _runs_match a b t' = true.
Proof.
  intros Ht. unfold _runs_match. destruct (_ || _); [discriminate|].
  rewrite !forallb_forall. intros H p Hp. specialize (H p Hp).
  destruct p as [ra rb]. unfold close_enough in *.
  apply andb_true_iff in H as [H1 H2]. apply Z.leb_le in H1, H2.
  apply andb_true_iff. split; apply Z.leb_le; lia.
Qed.

Lemma runs_match_pointwise a b t :
  _runs_match a b t = true <->
  a <> [] /\
  Forall2 (fun ra rb : Z * Z =>
             Z.abs (ra.1 - rb.1) <= t /\ Z.abs (ra.2 - rb.2) <= t) a b.
Proof.
  unfold _runs_match. split.
  - destruct (length a =? length b)%nat eqn:E; cbn [negb orb]; [|discriminate].
    apply Nat.eqb_eq in E.
    destruct a as [|ra a]; [discriminate|]. cbn [length Nat.ltb Nat.leb negb].
    intros H. split; [discriminate|].
    revert E H. generalize (ra :: a). clear. intros a. revert b.
    induction a as [|x a IH]; intros [|z b] E H; try discriminate; [constructor|].
    cbn in H. apply andb_true_iff in H as [Hx H].
    apply andb_true_iff in Hx as [H1 H2]. apply Z.leb_le in H1, H2.
    constructor; [auto|]. apply IH; [cbn in E; lia | exact H].
  - intros [Ha H]. rewrite (Forall2_length _ _ _ H), Nat.eqb_refl.
    destruct a as [|ra a]; [congruence|].
    inversion H as [|? rb ? b' Hr Hrest]; subst. cbn [length Nat.ltb Nat.leb negb orb].
    clear Ha. revert H. generalize (ra :: a) (rb :: b'). clear.
    induction 1 as [|x z a b [H1 H2] _ IH]; [reflexivity|].
    cbn. rewrite IH, andb_true_r.
    apply andb_true_iff. split; apply Z.leb_le; assumption.
Qed.

(** X4. [_runs_match] holds exactly when the first run set is not empty
    and the two sets pair up one to one with starts and ends at most
    [tolerance] apart (so sets of different sizes never match); it does not
    depend on the order of its two arguments, a set matches itself when it
    is not empty and the tolerance is not negative, a larger tolerance
    keeps every match, and a row without runs matches nothing. *)
Theorem runs_match_relation a b tolerance :
  (_runs_match a b tolerance = true <->
   a <> [] /\
   Forall2 (fun ra rb : Z * Z =>
              Z.abs (ra.1 - rb.1) <= tolerance /\
              Z.abs (ra.2 - rb.2) <= tolerance) a b)
  /\ _runs_match a b tolerance = _runs_match b a tolerance
  /\ (0 <= tolerance -> a <> [] -> _runs_match a a tolerance = true)
  /\ (forall t', tolerance <= t' ->
                 _runs_match a b tolerance = true -> _runs_match a b t' = true)
  /\ _runs_match [] b tolerance = false
  /\ _runs_match a [] tolerance = false.
Proof.
  split; [apply runs_match_pointwise|].
  split; [apply runs_match_sym|].
  split; [apply runs_match_refl|].
  split; [intros t'; apply runs_match_mono|].
  split; [apply runs_match_nil_l | apply runs_match_nil_r].
Qed.

End RunsMatch.

(** ** Raster boxes lie on the page *)

Section RasterBoxes.
Import Redactions.

Variable pix : Pixmap.
Variables dark_threshold min_run_px page_num : Z.
Variables scale_x scale_y : Q.







End RasterBoxes.

Section RasterGeometry.
Import Redactions.











End RasterGeometry.

(** ** The detectors, page by page *)

Section Detectors.
Import Redactions.

Lemma elem_of_enumerate_from {A} (k : Z) (l : list A) (n : Z) (a : A) :
  (n, a) ∈ enumerate_from k l <->
  exists i : nat, n = k + Z.of_nat i /\ l !! i = Some a.
Proof.
  revert k. induction l as [|x l IH]; intros k; cbn [enumerate_from].
  - split; [intros H; inversion H | intros (i & _ & H); destruct i; discriminate].
  - rewrite elem_of_cons, IH. split.
    + intros [[= -> ->] | (i & -> & Hi)].
      * exists 0%nat. split; [lia | reflexivity].
      * exists (S i). split; [lia | exact Hi].
    + intros ([|i] & -> & Hi).
      * left. cbn in Hi. injection Hi as ->. f_equal. lia.
      * right. exists i. split; [lia | exact Hi].
Qed.

(** Membership in what a per-page collector gathers over a document. *)
Lemma elem_of_collected {B} (f : Z -> Page -> list B) (pages : list Page) (b : B) :
  b ∈ flat_map (fun '(page_num, pg) => f page_num pg) (enumerate pages) <->
  exists (i : nat) pg, pages !! i = Some pg /\ b ∈ f (Z.of_nat i) pg.
Proof.
  rewrite list_elem_of_In, in_flat_map. split.
  - intros ([n pg] & Hin & Hb). apply list_elem_of_In in Hin.
    apply elem_of_enumerate_from in Hin as (i & -> & Hi).
    exists i, pg. split; [exact Hi|]. apply list_elem_of_In. exact Hb.
  - intros (i & pg & Hi & Hb). exists (Z.of_nat i, pg). split.
    + apply list_elem_of_In, elem_of_enumerate_from. exists i. auto.
    + apply list_elem_of_In. exact Hb.
Qed.

Lemma clamp0_ge_iff (c d : Q) :
  (0 < c)%Q -> Qle_bool c (clamp0 d) = true <-> (c <= d)%Q.
Proof.
  intros Hc. split; [apply clamp0_ge; exact Hc|].
  intros Hd. unfold clamp0.
  assert (H0 : Qle_bool 0 d = true).
  { apply Qle_bool_iff. apply Qle_trans with c; [apply Qlt_le_weak, Hc | exact Hd]. }
  rewrite H0. apply Qle_bool_iff. exact Hd.
Qed.

(** A filled path the vector detector keeps: every channel of the fill
    at most 0.1, at least 15 wide and 5 high. *)
Definition black_box (d : Drawing) : Prop :=
  exists fill,
    drawing_fill d = Some fill /\
    Forall (fun c => (c <= 1 # 10)%Q) fill /\
    (15 <= x1 (drawing_rect d) - x0 (drawing_rect d))%Q /\
    (5 <= y1 (drawing_rect d) - y0 (drawing_rect d))%Q.

Lemma elem_of_drawing_boxes page_num pg b :
  b ∈ drawing_boxes page_num pg <->
  exists d, d ∈ page_drawings pg /\ black_box d /\
            b = box_of_rect page_num (drawing_rect d).
Proof.
  unfold drawing_boxes. rewrite list_elem_of_In, in_flat_map. split.
  - intros (d & Hd & Hb). exists d. split; [apply list_elem_of_In, Hd|].
    destruct (drawing_fill d) as [fill|] eqn:Ef; [|contradiction].
    destruct (forallb _ fill) eqn:Eall; [|contradiction].
    destruct (Qle_bool 15 (Rect_width (drawing_rect d))) eqn:Ew; [|contradiction].
    destruct (Qle_bool 5 (Rect_height (drawing_rect d))) eqn:Eh; [|contradiction].
    destruct Hb as [<- | []]. split; [|reflexivity].
    exists fill. split; [exact Ef|]. split.
    + apply Forall_forall. intros c Hc. rewrite forallb_forall in Eall.
      apply Qle_bool_iff, Eall, list_elem_of_In, Hc.
    + split; [apply (clamp0_ge_iff 15) | apply (clamp0_ge_iff 5)];
        solve [reflexivity | assumption].
  - intros (d & Hd & (fill & Ef & Hall & Hw & Hh) & ->).
    exists d. split; [apply list_elem_of_In, Hd|]. rewrite Ef.
    assert (Eall : forallb (fun c => Qle_bool c (1 # 10)) fill = true).
    { apply forallb_forall. intros c Hc. apply Qle_bool_iff.
      rewrite Forall_forall in Hall. apply Hall, list_elem_of_In, Hc. }
    rewrite Eall. unfold Rect_width, Rect_height.
    rewrite (proj2 (clamp0_ge_iff 15 _ eq_refl) Hw).
    rewrite (proj2 (clamp0_ge_iff 5 _ eq_refl) Hh).
    left. reflexivity.
Qed.

Lemma find_vector_redactions_spec doc pages :
  doc_pages doc = Return pages ->
  exists l,
    _find_vector_redactions doc = Return l /\
    forall b,
      b ∈ l <->
      exists (i : nat) pg d,
        pages !! i = Some pg /\ d ∈ page_drawings pg /\ black_box d /\
        b = box_of_rect (Z.of_nat i) (drawing_rect d).
Proof.
  intros Hp. unfold _find_vector_redactions. rewrite Hp.
  cbn [mbind result_bind rbind]. eexists. split; [reflexivity|].
  intros b. rewrite (elem_of_collected drawing_boxes). split.
  - intros (i & pg & Hi & Hb). apply elem_of_drawing_boxes in Hb as (d & ? & ? & ?).
    exists i, pg, d. auto.
  - intros (i & pg & d & Hi & Hd & Hbb & Hb). exists i, pg. split; [exact Hi|].
    apply elem_of_drawing_boxes. eauto.
Qed.

Lemma elem_of_annot_boxes page_num pg b :
  b ∈ annot_boxes page_num pg <->
  exists a, a ∈ page_annots pg /\ (annot_type a).1 = PDF_ANNOT_REDACT /\
            b = box_of_rect page_num (annot_rect a).
Proof.
  unfold annot_boxes. rewrite list_elem_of_In, in_flat_map. split.
  - intros (a & Ha & Hb). exists a. split; [apply list_elem_of_In, Ha|].
    destruct (Z.eqb_spec (annot_type a).1 PDF_ANNOT_REDACT); [|contradiction].
    destruct Hb as [<- | []]. auto.
  - intros (a & Ha & Ht & ->). exists a. split; [apply list_elem_of_In, Ha|].
    rewrite Ht, Z.eqb_refl. left. reflexivity.
Qed.




(** X6. The vector detector returns exactly the rectangles of the filled
    paths whose fill has every channel at most 0.1 and whose rectangle is
    at least 15 wide and 5 high, each with the index of its page; a path
    without fill, with a lighter fill or with a smaller rectangle never
    yields a box. *)
Theorem find_vector_redactions_exact doc pages :
  doc_pages doc = Return pages ->
  exists l,
    _find_vector_redactions doc = Return l /\
    forall b,
      b ∈ l <->
      exists (i : nat) pg d,
        pages !! i = Some pg /\ d ∈ page_drawings pg /\ black_box d /\
        b = box_of_rect (Z.of_nat i) (drawing_rect d).
Proof. apply find_vector_redactions_spec. Qed.

End Detectors.

(** ** Fusion keeps every box *)

Section Fusion.
Import Redactions.

Lemma insert_by_perm {A K} (lt : K -> K -> bool) (key : A -> K) x l :
  insert_by lt key x l ≡ₚ x :: l.
Proof.
  induction l as [|y l IH]; cbn [insert_by]; [reflexivity|].
  destruct (lt (key x) (key y)); [reflexivity|].
  rewrite IH. apply Permutation_swap.
Qed.

Lemma sort_by_perm {A K} (lt : K -> K -> bool) (key : A -> K) l :
  sort_by lt key l ≡ₚ l.
Proof.
  unfold sort_by.
  assert (H : forall acc, fold_left (fun sorted x => insert_by lt key x sorted) l acc
                          ≡ₚ acc ++ l).
  { induction l as [|x l IH]; intros acc; cbn [fold_left].
    - rewrite app_nil_r. reflexivity.
    - rewrite IH, insert_by_perm. rewrite (Permutation_middle acc l x).
      reflexivity. }
  apply (H []).
Qed.

Lemma detect_Return doc results :
  detect doc = Return results <->
  exists a v i,
    _find_annotation_redactions doc = Return a /\
    _find_vector_redactions doc = Return v /\
    _find_image_redactions doc 150 80 5 15 = Return i /\
    results = (a ++ v) ++ i.
Proof.
  unfold detect.
  destruct (_find_annotation_redactions doc) as [a|e]; cbn [mbind result_bind rbind].
  2:{ split; [discriminate | intros (? & ? & ? & H & _); discriminate]. }
  destruct (_find_vector_redactions doc) as [v|e]; cbn [mbind result_bind rbind].
  2:{ split; [discriminate | intros (? & ? & ? & _ & H & _); discriminate]. }
  destruct (_find_image_redactions doc 150 80 5 15) as [i|e];
    cbn [mbind result_bind rbind].
  2:{ split; [discriminate | intros (? & ? & ? & _ & _ & H & _); discriminate]. }
  split.
  - intros [= <-]. exists a, v, i. auto.
  - intros (a' & v' & i' & [= <-] & [= <-] & [= <-] & ->). reflexivity.
Qed.

(** X7. The list [find_redactions] returns is a rearrangement of the
    boxes of the annotation detector, followed by those of the vector
    detector, followed by those of the raster detector: nothing is dropped
    and nothing is merged, so a region found by two detectors appears
    twice and the lengths add up. *)
Theorem find_redactions_keeps_every_box parse pdf_bytes w w' boxes :
  find_redactions parse pdf_bytes w = (w', Return boxes) ->
  exists pages a v i,
    parse pdf_bytes = Return pages /\
    let doc := {| doc_handle := next_handle w; doc_pages := pages |} in
    _find_annotation_redactions doc = Return a /\
    _find_vector_redactions doc = Return v /\
    _find_image_redactions doc 150 80 5 15 = Return i /\
    boxes ≡ₚ a ++ v ++ i /\
    length boxes = (length a + length v + length i)%nat.
Proof.
  rewrite find_redactions_run. intros H.
  destruct (parse pdf_bytes) as [pages|e]; [|discriminate].
  destruct (detect _) as [results|e] eqn:Ed; [|discriminate].
  injection H as _ <-.
  apply detect_Return in Ed as (a & v & i & Ha & Hv & Hi & ->).
  exists pages, a, v, i. split; [reflexivity|]. cbv zeta.
  split; [exact Ha|]. split; [exact Hv|]. split; [exact Hi|].
  assert (Hp : sort_by key_lt sort_key ((a ++ v) ++ i) ≡ₚ a ++ v ++ i).
  { rewrite sort_by_perm, <- app_assoc. reflexivity. }
  split; [exact Hp|].
  rewrite (Permutation_length Hp), !length_app. lia.
Qed.

End Fusion.

(** ** What a detection call returns on a regular document *)

Section Sources.
Import Redactions.

Lemma find_annotation_redactions_spec doc pages :
  doc_pages doc = Return pages ->
  exists l,
    _find_annotation_redactions doc = Return l /\
    forall b,
      b ∈ l <->
      exists (i : nat) pg a,
        pages !! i = Some pg /\ a ∈ page_annots pg /\
        (annot_type a).1 = PDF_ANNOT_REDACT /\
        b = box_of_rect (Z.of_nat i) (annot_rect a).
Proof.
  intros Hp. unfold _find_annotation_redactions. rewrite Hp.
  cbn [mbind result_bind rbind]. eexists. split; [reflexivity|].
  intros b. rewrite (elem_of_collected annot_boxes). split.
  - intros (i & pg & Hi & Hb). apply elem_of_annot_boxes in Hb as (a & ? & ? & ?).
    exists i, pg, a. auto.
  - intros (i & pg & a & Hi & Ha & Ht & Hb). exists i, pg. split; [exact Hi|].
    apply elem_of_annot_boxes. eauto.
Qed.


End Sources.

(** ** A page without dark pixels *)

Section BlankRaster.
Import Redactions.

Lemma getitem_elem samples i v : getitem samples i = Return v -> v ∈ samples.
Proof.
  unfold getitem. destruct (_ <? 0); [discriminate|].
  destruct (samples !! _) as [x|] eqn:E; [|discriminate].
  intros [= <-]. eapply list_elem_of_lookup_2, E.
Qed.

Lemma get_dark_runs_blank samples y width threshold min_width rs :
  Forall (fun v => threshold <= v) samples ->
  _get_dark_runs samples y width threshold min_width = Return rs ->
  rs = [].
Proof.
  intros Hlight H.
  destruct (get_dark_runs_spec samples (y * width) threshold min_width
              y width rs eq_refl H) as [Hchar _].
  destruct rs as [|[s e] rs]; [reflexivity|]. exfalso.
  destruct (proj1 (Hchar s e)) as ((H0 & Hse & _ & Hd & _) & _); [left|].
  destruct (Hd s) as (v & Hv & Hlt); [lia|].
  apply getitem_elem in Hv. rewrite Forall_forall in Hlight.
  specialize (Hlight v Hv). lia.
Qed.

Lemma scan_rows_blank pix dark_threshold min_run_px page_num sx sy ys st st' :
  Forall (fun v => dark_threshold <= v) (pix_samples pix) ->
  prev_runs st = [] ->
  scan_rows pix dark_threshold min_run_px page_num sx sy ys st = Return st' ->
  prev_runs st' = [] /\ results st' = results st.
Proof.
  intros Hlight. revert st. induction ys as [|y ys IH]; intros st Hprev Hscan.
  - injection Hscan as <-. auto.
  - cbn [scan_rows] in Hscan.
    destruct (_get_dark_runs _ y _ _ _) as [ry|] eqn:Ery; [|discriminate].
    cbn [mbind result_bind rbind] in Hscan.
    apply (get_dark_runs_blank _ _ _ _ _ _ Hlight) in Ery. subst ry.
    rewrite (scan_step_mismatch _ _ _ _ _ _ (runs_match_nil_l _ _)) in Hscan.
    apply IH in Hscan as [Hp Hr]; [|reflexivity].
    split; [exact Hp|]. rewrite Hr. cbn [results]. unfold emitted.
    rewrite Hprev. cbn. destruct (_ >=? _); apply app_nil_r.
Qed.

(** A regular page without Redact annotation, without near-black filled
    path of the minimum size, and without a pixel below the threshold. *)
Definition quiet_page (dpi dark_threshold : Z) (pg : Page) : Prop :=
  Forall (fun a => (annot_type a).1 <> PDF_ANNOT_REDACT) (page_annots pg) /\
  Forall (fun d => ~ black_box d) (page_drawings pg) /\
  exists pix,
    page_pixmap pg dpi = Return pix /\
    Forall (fun v => dark_threshold <= v) (pix_samples pix).

Lemma scan_page_blank dpi dark_threshold min_width_pt page_num pg pix results results' :
  page_pixmap pg dpi = Return pix ->
  Forall (fun v => dark_threshold <= v) (pix_samples pix) ->
  scan_page dpi dark_threshold min_width_pt page_num pg results = Return results' ->
  results' = results.
Proof.
  intros Hpix Hlight. unfold scan_page. rewrite Hpix.
  cbn [mbind result_bind rbind].
  destruct (q_truediv (Rect_width (page_rect pg)) (inject_Z (pix_width pix)))
    as [sx|]; [|discriminate]. cbn [mbind result_bind rbind].
  destruct (q_truediv (Rect_height (page_rect pg)) (inject_Z (pix_height pix)))
    as [sy|]; [|discriminate]. cbn [mbind result_bind rbind].
  destruct (q_truediv min_width_pt sx) as [q|]; [|discriminate].
  cbn [mbind result_bind rbind].
  destruct (scan_rows _ _ _ _ _ _ _ _) as [st|] eqn:Es; [|discriminate].
  cbn [mbind result_bind rbind]. intros [= <-].
  apply scan_rows_blank in Es as [Hp Hr]; [|exact Hlight|reflexivity].
  rewrite close_rects_emitted. unfold emitted. rewrite Hp, Hr. cbn.
  destruct (_ >=? _); apply app_nil_r.
Qed.

Lemma scan_pages_blank dpi dark_threshold min_width_pt pages k results results' :
  Forall (fun pg => exists pix,
              page_pixmap pg dpi = Return pix /\
              Forall (fun v => dark_threshold <= v) (pix_samples pix)) pages ->
  scan_pages dpi dark_threshold min_width_pt (enumerate_from k pages) results
  = Return results' ->
  results' = results.
Proof.
  intros H. revert k results.
  induction H as [|pg pages (pix & Hpix & Hl) _ IH]; intros k results;
    cbn [enumerate_from scan_pages].
  - intros [= <-]. reflexivity.
  - destruct (scan_page _ _ _ _ _ _) as [r1|] eqn:E1; [|discriminate].
    cbn [mbind result_bind rbind]. intros H2.
    apply (scan_page_blank _ _ _ _ _ _ _ _ Hpix Hl) in E1. subst r1.
    eapply IH, H2.
Qed.

(** X9. If [find_redactions] returns on a document in which no page has a
    Redact annotation, a near-black filled path of at least 15 by 5, or a
    raster pixel below the dark threshold of 80, the list it returns is
    empty. *)
Theorem find_redactions_nothing_to_find parse pdf_bytes w w' boxes pages :
  parse pdf_bytes = Return (Return pages) ->
  Forall (quiet_page 150 80) pages ->
  find_redactions parse pdf_bytes w = (w', Return boxes) ->
  boxes = [].
Proof.
  intros Hparse Hquiet. rewrite find_redactions_run, Hparse.
  set (doc := {| doc_handle := next_handle w; doc_pages := Return pages |}).
  destruct (detect doc) as [results|] eqn:Ed; [|discriminate].
  intros [= _ <-].
  apply detect_Return in Ed as (a & v & im & Ha & Hv & Him & ->).
  destruct (find_annotation_redactions_spec doc pages eq_refl) as (a' & Ha' & Hamem).
  destruct (find_vector_redactions_spec doc pages eq_refl) as (v' & Hv' & Hvmem).
  rewrite Ha in Ha'. injection Ha' as <-. rewrite Hv in Hv'. injection Hv' as <-.
  rewrite Forall_forall in Hquiet.
  assert (a = []) as ->.
  { destruct a as [|b a]; [reflexivity|]. exfalso.
    destruct (proj1 (Hamem b)) as (i & pg & an & Hi & Han & Ht & _); [left|].
    apply list_elem_of_lookup_2, Hquiet in Hi. destruct Hi as (Hq & _).
    rewrite Forall_forall in Hq. exact (Hq an Han Ht). }
  assert (v = []) as ->.
  { destruct v as [|b v]; [reflexivity|]. exfalso.
    destruct (proj1 (Hvmem b)) as (i & pg & d & Hi & Hd & Hbb & _); [left|].
    apply list_elem_of_lookup_2, Hquiet in Hi. destruct Hi as (_ & Hq & _).
    rewrite Forall_forall in Hq. exact (Hq d Hd Hbb). }
  assert (im = []) as ->.
  { unfold _find_image_redactions in Him. cbn [doc doc_pages] in Him.
    cbn [mbind result_bind rbind] in Him.
    destruct (scan_pages _ _ _ _ _) as [r|] eqn:Es; [|discriminate].
    apply scan_pages_blank in Es.
    - subst r. cbn in Him. injection Him as <-. reflexivity.
    - apply Forall_forall. intros pg Hpg. apply Hquiet in Hpg.
      destruct Hpg as (_ & _ & Hpix). exact Hpix. }
  reflexivity.
Qed.

End BlankRaster.

(** ** Where each returned span comes from *)

Section SpanFields.
Import SpanExtractor.

Lemma flag_testbit (flags k : Z) :
  0 <= k -> flag flags (2 ^ k) = Z.testbit flags k.
Proof.
  intros Hk. unfold flag. destruct (Z.testbit flags k) eqn:E.
  - apply negb_true_iff, Z.eqb_neq. intros H0.
    assert (Hb : Z.testbit (Z.land flags (2 ^ k)) k = true).
    { rewrite Z.land_spec, E, Z.pow2_bits_true by exact Hk. reflexivity. }
    rewrite H0, Z.bits_0 in Hb. discriminate.
  - apply negb_false_iff, Z.eqb_eq, Z.bits_inj'. intros n Hn.
    rewrite Z.land_spec, Z.bits_0.
    destruct (Z.eq_dec k n) as [<-|Hne].
    + rewrite E. reflexivity.
    + rewrite (Z.pow2_bits_false k n Hne). apply andb_false_r.
Qed.

(** The record [r] is what the extractor builds from run [run] found on
    page number [n]. *)
Definition built_from (n : Z) (run : Span) (r : TextSpan) : Prop :=
  text r = span_text run /\
  page r = n /\
  bbox r = span_bbox run /\
  name (font r) = span_font run /\
  size (font r) = Widths.py_round (span_size run) /\
  bold (font r) = Z.testbit (span_flags run) 4 /\
  italic (font r) = Z.testbit (span_flags run) 1 /\
  monospaced (font r) = Z.testbit (span_flags run) 3 /\
  serif (font r) = Z.testbit (span_flags run) 2 /\
  color (font r) = span_color run /\
  matched_font (font r) = PdfInfo._match_font (span_font run).

Lemma span_record_built page_num run r :
  r ∈ span_record page_num run -> built_from page_num run r.
Proof.
  unfold span_record. destruct (negb _); [intros H; inversion H|].
  intros H. apply list_elem_of_singleton in H. subst r.
  unfold built_from. cbn.
  destruct (span_bbox run) as [[[a b] c] d]. cbn.
  repeat split; try reflexivity.
  - exact (flag_testbit (span_flags run) 4 ltac:(lia)).
  - exact (flag_testbit (span_flags run) 1 ltac:(lia)).
  - exact (flag_testbit (span_flags run) 3 ltac:(lia)).
  - exact (flag_testbit (span_flags run) 2 ltac:(lia)).
Qed.

Lemma elem_of_page_records page_num pg r :
  r ∈ page_records page_num pg ->
  exists blk line run,
    blk ∈ page_blocks pg /\ block_type blk = 0 /\
    line ∈ block_lines blk /\ run ∈ line_spans line /\
    built_from page_num run r.
Proof.
  unfold page_records, block_records.
  rewrite list_elem_of_In, in_flat_map. intros (blk & Hblk & Hr).
  destruct (Z.eqb_spec (block_type blk) 0) as [Ht|]; cbn [negb] in Hr; [|destruct Hr].
  apply in_flat_map in Hr as (line & Hline & Hr).
  apply in_flat_map in Hr as (run & Hrun & Hr).
  exists blk, line, run. rewrite !list_elem_of_In.
  repeat (split; [assumption|]).
  apply span_record_built, list_elem_of_In, Hr.
Qed.

(** X10. Every span [extract_font_info] returns is built from a run of a
    text block (type 0) of some page: it carries that page's index, the
    run's text, bounding box, font name and colour unchanged, the size
    rounded to an integer, the family the resolver gives for the font
    name, and the four style flags read from bits 4 (bold), 1 (italic),
    3 (monospaced) and 2 (serif) of the run's flags, independently of one
    another. *)
Theorem extract_font_info_span_fields parse pdf_bytes w w' spans :
  extract_font_info parse pdf_bytes w = (w', Return spans) ->
  exists pages,
    parse pdf_bytes = Return (Return pages) /\
    forall r, r ∈ spans ->
      exists (i : nat) pg blk line run,
        pages !! i = Some pg /\
        blk ∈ page_blocks pg /\ block_type blk = 0 /\
        line ∈ block_lines blk /\ run ∈ line_spans line /\
        built_from (Z.of_nat i) run r.
Proof.
  rewrite extract_font_info_run. intros H.
  destruct (parse pdf_bytes) as [[pages|e]|e]; try discriminate.
  unfold collect in H. cbn in H. injection H as _ <-.
  exists pages. split; [reflexivity|]. intros r Hr.
  apply (elem_of_collected page_records) in Hr as (i & pg & Hi & Hr).
  apply elem_of_page_records in Hr as (blk & line & run & ? & ? & ? & ? & ?).
  exists i, pg, blk, line, run. auto 10.
Qed.








End SpanFields.

(** ** The resolver on names without a space *)

Section ResolverNames.
Import PdfInfo.

Lemma str_app_assoc (a b c : string) :
  ((a ++ b) ++ c)%string = (a ++ (b ++ c))%string.
Proof.
  induction a as [|x a IH]; [reflexivity|].
  change (String x ((a ++ b) ++ c)%string = String x (a ++ (b ++ c))%string).
  f_equal. exact IH.
Qed.

Lemma substring_trans a b c : Substring a b -> Substring b c -> Substring a c.
Proof.
  intros (p1 & q1 & ->) (p2 & q2 & ->).
  exists (p2 ++ p1)%string, (q1 ++ q2)%string.
  rewrite !str_app_assoc. reflexivity.
Qed.

Lemma lower_ascii_space c :
  Ascii.eqb " " (lower_ascii c) = Ascii.eqb " " c.
Proof.
  destruct c as [[] [] [] [] [] [] [] []]; reflexivity.
Qed.

Lemma str_contains_space_lower s :
  str_contains " " (str_lower s) = str_contains " " s.
Proof.
  induction s as [|c s IH]; [reflexivity|].
  cbn [str_lower str_contains starts_with]. rewrite IH, lower_ascii_space.
  reflexivity.
Qed.

Lemma match_rules_skip rules rules' lower :
  Forall (fun r : string * FontT => str_contains r.1 lower = false) rules ->
  match_rules (rules ++ rules') lower = match_rules rules' lower.
Proof.
  induction 1 as [|[sub f] rules Hr _ IH]; [reflexivity|].
  cbn [app match_rules]. cbn in Hr. rewrite Hr. exact IH.
Qed.

(** X12. Each canonical family name resolves to its own family, also
    when written in another letter case. *)
Theorem match_font_family_name (f : FontT) (raw : string) :
  str_lower raw = FontT_name f -> _match_font raw = Some f.
Proof.
  intros H. unfold _match_font. rewrite H. destruct f; reflexivity.
Qed.

(** X13. The three "liberation ..." rules contain a space, so a raw name
    without a space is resolved by the remaining eleven rules alone; in
    particular a name that has no space and contains none of arial, arimo,
    helvetica, calibri, carlito, cambria, caladea, courier, cousine, times,
    tinos resolves to no family, even if it contains "liberation". *)
Theorem match_font_without_space (raw : string) :
  str_contains " " raw = false ->
  _match_font raw = match_rules (drop 3 _FONT_NAME_MAP) (str_lower raw).
Proof.
  intros Hsp. unfold _match_font.
  change _FONT_NAME_MAP with (take 3 _FONT_NAME_MAP ++ drop 3 _FONT_NAME_MAP).
  cbv zeta. apply match_rules_skip.
  assert (Hno : forall sub, Substring " " sub ->
                            str_contains sub (str_lower raw) = false).
  { intros sub Hsub. apply str_contains_false. intros Hin.
    pose proof (substring_trans _ _ _ Hsub Hin) as H.
    apply str_contains_spec in H. rewrite str_contains_space_lower in H.
    congruence. }
  repeat constructor; cbn [fst]; apply Hno, str_contains_spec; reflexivity.
Qed.

End ResolverNames.

Lemma match_font_family_name_witness :
  PdfInfo._match_font "Times New Roman" = Some TimesNewRoman.
Proof. apply match_font_family_name. reflexivity. Defined.

Lemma match_font_without_space_witness :
  PdfInfo._match_font "LiberationSans" =
  PdfInfo.match_rules (drop 3 PdfInfo._FONT_NAME_MAP) (str_lower "LiberationSans").
Proof. apply match_font_without_space. reflexivity. Defined.

Example match_font_liberation_postscript_names :
  PdfInfo._match_font "LiberationSans" = None /\
  PdfInfo._match_font "LiberationMono-Bold" = None /\
  PdfInfo._match_font "LiberationSerif" = None /\
  PdfInfo._match_font "Liberation Sans" = Some Arial.
Proof. repeat split; reflexivity. Qed.

(** ** Font lookup when a file is found *)

Section FontLookup.
Import Widths.

Variable pf : Platform.

(** Directory [base] has no file [filename], neither directly nor below
    it. *)
Definition no_hit (filename : string) (base : Path) : bool :=
  negb (path_exists pf (path_join (system pf) base filename))
  && match rglob pf base filename with
     | [] => true
     | _ :: _ => false
     end.

(** [p] is what the search takes from directory [base] for [filename]:
    the file directly in it when that exists, else the first match of the
    recursive glob. *)
Definition hit (filename : string) (base : Path) (p : Path) : Prop :=
  (p = path_join (system pf) base filename /\ path_exists pf p = true)
  \/ (path_exists pf (path_join (system pf) base filename) = false /\
      exists others, rglob pf base filename = p :: others).

Lemma search_bases_Some filename bases p :
  search_bases pf filename bases = Some p ->
  exists bpre base bpost,
    bases = bpre ++ base :: bpost /\
    Forall (fun b => no_hit filename b = true) bpre /\
    hit filename base p.
Proof.
  induction bases as [|b bases IH]; cbn [search_bases]; [discriminate|].
  destruct (path_exists pf (path_join (system pf) b filename)) eqn:Ee.
  - intros [= <-]. exists [], b, bases. split; [reflexivity|].
    split; [constructor|]. left. auto.
  - destruct (rglob pf b filename) as [|m ms] eqn:Er.
    + intros H. destruct (IH H) as (bpre & base & bpost & -> & Hpre & Hhit).
      exists (b :: bpre), base, bpost. split; [reflexivity|].
      split; [|exact Hhit]. constructor; [|exact Hpre].
      unfold no_hit. rewrite Ee, Er. reflexivity.
    + intros [= <-]. exists [], b, bases. split; [reflexivity|].
      split; [constructor|]. right. eauto.
Qed.

Lemma search_bases_no_hit filename bases :
  search_bases pf filename bases = None <->
  Forall (fun b => no_hit filename b = true) bases.
Proof.
  rewrite search_bases_None, Forall_forall, forallb_forall.
  unfold no_hit. split; intros H b Hb; apply H;
    [apply list_elem_of_In | apply list_elem_of_In]; exact Hb.
Qed.

Lemma search_filenames_Some filenames bases p :
  search_filenames pf filenames bases = Some p ->
  exists fpre filename fpost,
    filenames = fpre ++ filename :: fpost /\
    Forall (fun f => Forall (fun b => no_hit f b = true) bases) fpre /\
    search_bases pf filename bases = Some p.
Proof.
  induction filenames as [|f filenames IH]; cbn [search_filenames]; [discriminate|].
  destruct (search_bases pf f bases) as [q|] eqn:E.
  - intros [= <-]. exists [], f, filenames. split; [reflexivity|].
    split; [constructor | exact E].
  - intros H. destruct (IH H) as (fpre & filename & fpost & -> & Hpre & Hs).
    exists (f :: fpre), filename, fpost. split; [reflexivity|].
    split; [|exact Hs]. constructor; [|exact Hpre].
    apply search_bases_no_hit, E.
Qed.

Lemma search_filenames_skip fpre rest bases :
  Forall (fun f => Forall (fun b => no_hit f b = true) bases) fpre ->
  search_filenames pf (fpre ++ rest) bases = search_filenames pf rest bases.
Proof.
  induction 1 as [|f fpre Hf _ IH]; [reflexivity|].
  cbn [app search_filenames].
  rewrite (proj2 (search_bases_no_hit f bases) Hf). exact IH.
Qed.

(** X14. When [_get_font_path] returns a path, that path belongs to the
    first candidate file name of the family, in the order of FONT_FILES,
    that is found in any searched directory, and was taken from the first
    searched directory that has it (the file directly in the directory if
    it exists, otherwise the first recursive match): an earlier file name
    wins over a later one whatever directories they are in. *)
Theorem get_font_path_first_candidate font p :
  _get_font_path pf font = Return p ->
  exists fpre filename fpost bpre base bpost,
    filenames_of font = fpre ++ filename :: fpost /\
    search_paths pf = bpre ++ base :: bpost /\
    Forall (fun f => Forall (fun b => no_hit f b = true) (search_paths pf)) fpre /\
    Forall (fun b => no_hit filename b = true) bpre /\
    hit filename base p.
Proof.
  unfold _get_font_path. rewrite FONT_FILES_total. cbn [mbind result_bind rbind].
  destruct (search_filenames pf _ _) as [q|] eqn:E; [|discriminate].
  intros [= <-].
  apply search_filenames_Some in E as (fpre & filename & fpost & Hf & Hfpre & Hs).
  apply search_bases_Some in Hs as (bpre & base & bpost & Hb & Hbpre & Hhit).
  exists fpre, filename, fpost, bpre, base, bpost. auto.
Qed.

(** X15. Helvetica falls back to Arial: when neither Helvetica.ttc nor
    Helvetica.ttf is found in any searched directory, looking up
    Helvetica returns exactly the path that looking up Arial returns. *)
Theorem get_font_path_helvetica_fallback p :
  Forall (fun b => no_hit "Helvetica.ttc" b = true) (search_paths pf) ->
  Forall (fun b => no_hit "Helvetica.ttf" b = true) (search_paths pf) ->
  _get_font_path pf Helvetica = Return p <-> _get_font_path pf Arial = Return p.
Proof.
  intros H1 H2. unfold _get_font_path. rewrite !FONT_FILES_total.
  cbn [mbind result_bind rbind].
  change (filenames_of Helvetica)
    with (["Helvetica.ttc"; "Helvetica.ttf"]%string ++ filenames_of Arial).
  rewrite search_filenames_skip by (repeat constructor; assumption).
  destruct (search_filenames pf (filenames_of Arial) (search_paths pf));
    split; congruence.
Qed.

Lemma load_fonts_ok l self :
  (forall f, f ∈ l -> no_candidate pf f = false) ->
  exists cache,
    load_fonts pf l self = Return cache /\
    forall f,
      (f ∈ l ->
       exists p, _get_font_path pf f = Return p /\
                 faces cache !! f = Some (font_program pf p) /\
                 upem cache !! f = Some (face_upem (font_program pf p))) /\
      (f ∉ l ->
       faces cache !! f = faces self !! f /\ upem cache !! f = upem self !! f).
Proof.
  revert self. induction l as [|g l IH]; intros self Hall; cbn [load_fonts].
  - exists self. split; [reflexivity|]. intros f. split; [intros H; inversion H | auto].
  - destruct (get_font_path_found pf g) as [p Hp]; [apply Hall; left|].
    rewrite Hp. cbn [mbind result_bind rbind].
    destruct (IH {| faces := <[g := font_program pf p]> (faces self);
                    upem := <[g := face_upem (font_program pf p)]> (upem self) |})
      as (cache & Hload & Hcache).
    { intros f Hf. apply Hall. right. exact Hf. }
    exists cache. split; [exact Hload|]. intros f.
    destruct (Hcache f) as [Hin Hout]. split.
    + intros Hf. destruct (decide (f ∈ l)) as [Hl|Hl]; [exact (Hin Hl)|].
      apply elem_of_cons in Hf as [-> | Hf]; [|contradiction].
      exists p. split; [exact Hp|]. destruct (Hout Hl) as [-> ->]. cbn.
      rewrite !lookup_insert_eq. auto.
    + intros Hf. apply not_elem_of_cons in Hf as [Hne Hl].
      destruct (Hout Hl) as [-> ->]. cbn.
      rewrite !lookup_insert_ne by congruence. auto.
Qed.

(** X16. If every requested family has a candidate file, construction
    returns a cache that holds exactly the requested families, each with
    the font program found at its looked-up path and that program's units
    per em; with no argument that is all six families. *)
Theorem FontCache_init_loads (fonts : option (list FontT)) :
  (forall f, f ∈ to_load fonts -> no_candidate pf f = false) ->
  exists cache,
    FontCache_init pf fonts = Return cache /\
    forall f,
      (f ∈ to_load fonts ->
       exists p, _get_font_path pf f = Return p /\
                 faces cache !! f = Some (font_program pf p) /\
                 upem cache !! f = Some (face_upem (font_program pf p))) /\
      (f ∉ to_load fonts -> faces cache !! f = None /\ upem cache !! f = None).
Proof.
  intros Hall. unfold FontCache_init.
  destruct (load_fonts_ok (to_load fonts) {| faces := ∅; upem := ∅ |} Hall)
    as (cache & Hload & Hcache).
  exists cache. split; [exact Hload|]. intros f.
  destruct (Hcache f) as [Hin Hout]. split; [exact Hin|].
  intros Hf. destruct (Hout Hf) as [-> ->]. cbn. rewrite !lookup_empty. auto.
Qed.


End FontLookup.

(** ** Accuracy of the computed width *)

Section WidthAccuracy.
Import Widths.



End WidthAccuracy.


(** ** Sample inputs for the detector and lookup properties *)


Definition two_rect_doc : Document :=
  {| doc_handle := 0; doc_pages := Return [two_rect_page; two_rect_page] |}.

(** A page with nothing on it. *)
Definition blank_page : Page := raster_page 612 792 white_pixmap.

Definition blank_pdf : Parser := fun _ => Return (Return [blank_page]).

(** A Linux machine on which only Arial is installed. *)
Definition arial_only : Widths.Platform :=
  {| Widths.system := "Linux";
     Widths.home := "/home/user";
     Widths.path_exists := fun p => String.eqb p "/usr/share/fonts/Arial.ttf";
     Widths.rglob := fun _ _ => [];
     Widths.font_program := fun _ => sample_face |}.




Lemma find_vector_redactions_exact_witness :
  exists l,
    Redactions._find_vector_redactions two_rect_doc = Return l /\
    forall b,
      b ∈ l <->
      exists (i : nat) pg d,
        [two_rect_page; two_rect_page] !! i = Some pg /\
        d ∈ page_drawings pg /\ black_box d /\
        b = Redactions.box_of_rect (Z.of_nat i) (drawing_rect d).
Proof.
  apply (find_vector_redactions_exact two_rect_doc [two_rect_page; two_rect_page]).
  reflexivity.
Defined.

Lemma find_redactions_keeps_every_box_witness :
  exists pages a v i,
    two_page_pdf [] = Return pages /\
    let doc := {| doc_handle := next_handle no_handles; doc_pages := pages |} in
    Redactions._find_annotation_redactions doc = Return a /\
    Redactions._find_vector_redactions doc = Return v /\
    Redactions._find_image_redactions doc 150 80 5 15 = Return i /\
    [ Redactions.box_of_rect 0 (mkRect 50 100 150 115);
      Redactions.box_of_rect 0 (mkRect 50 200 150 215);
      Redactions.box_of_rect 1 (mkRect 50 100 150 115);
      Redactions.box_of_rect 1 (mkRect 50 200 150 215) ] ≡ₚ a ++ v ++ i /\
    length [ Redactions.box_of_rect 0 (mkRect 50 100 150 115);
             Redactions.box_of_rect 0 (mkRect 50 200 150 215);
             Redactions.box_of_rect 1 (mkRect 50 100 150 115);
             Redactions.box_of_rect 1 (mkRect 50 200 150 215) ]
    = (length a + length v + length i)%nat.
Proof.
  apply (find_redactions_keeps_every_box two_page_pdf [] no_handles
           (Redactions.find_redactions two_page_pdf [] no_handles).1).
  rewrite (surjective_pairing (Redactions.find_redactions two_page_pdf [] no_handles)) at 1.
  apply pair_equal_spec. split; [reflexivity | vm_compute; reflexivity].
Defined.


Lemma find_redactions_nothing_to_find_witness :
  (Redactions.find_redactions blank_pdf [] no_handles).2 = Return [] /\
  @nil Redactions.RedactionBox = [].
Proof.
  split; [vm_compute; reflexivity|].
  apply (find_redactions_nothing_to_find blank_pdf [] no_handles
           (Redactions.find_redactions blank_pdf [] no_handles).1 [] [blank_page]).
  - reflexivity.
  - apply Forall_cons. split; [|apply Forall_nil; exact I].
    split; [apply Forall_nil; exact I|]. split; [apply Forall_nil; exact I|].
    exists white_pixmap. split; [reflexivity|].
    apply Forall_forall. intros v Hv. vm_compute in Hv.
    repeat (apply elem_of_cons in Hv as [-> | Hv]; [lia|]). inversion Hv.
  - rewrite (surjective_pairing (Redactions.find_redactions blank_pdf [] no_handles)) at 1.
    apply pair_equal_spec. split; [reflexivity | vm_compute; reflexivity].
Defined.

Lemma extract_font_info_span_fields_witness :
  exists pages,
    sample_text_pdf [] = Return (Return pages) /\
    forall r,
      r ∈ [ SpanExtractor.mkTextSpan "  Hello "
              (SpanExtractor.mkFontInfo "Helvetica" 12 false false false false 0
                                        (Some Helvetica))
              0 (50, 40, 90, 52)%Q;
            SpanExtractor.mkTextSpan "World"
              (SpanExtractor.mkFontInfo "Courier-Bold" 14 true false true false 0
                                        (Some CourierNew))
              0 (50, 90, 92, 104)%Q ] ->
      exists (i : nat) pg blk line run,
        pages !! i = Some pg /\
        blk ∈ page_blocks pg /\ block_type blk = 0 /\
        line ∈ block_lines blk /\ run ∈ line_spans line /\
        built_from (Z.of_nat i) run r.
Proof.
  apply (extract_font_info_span_fields sample_text_pdf [] no_handles
           (SpanExtractor.extract_font_info sample_text_pdf [] no_handles).1).
  rewrite (surjective_pairing
             (SpanExtractor.extract_font_info sample_text_pdf [] no_handles)) at 1.
  apply pair_equal_spec. split; [reflexivity | vm_compute; reflexivity].
Defined.

Definition sample_spans : list SpanExtractor.TextSpan :=
  [ SpanExtractor.mkTextSpan "  Hello "
      (SpanExtractor.mkFontInfo "Helvetica" 12 false false false false 0
                                (Some Helvetica))
      0 (50, 40, 90, 52)%Q;
    SpanExtractor.mkTextSpan "World"
      (SpanExtractor.mkFontInfo "Courier-Bold" 14 true false true false 0
                                (Some CourierNew))
      0 (50, 90, 92, 104)%Q ].


Lemma get_font_path_first_candidate_witness :
  exists fpre filename fpost bpre base bpost,
    filenames_of Calibri = fpre ++ filename :: fpost /\
    Widths.search_paths carlito_only = bpre ++ base :: bpost /\
    Forall (fun f => Forall (fun b => no_hit carlito_only f b = true)
                            (Widths.search_paths carlito_only)) fpre /\
    Forall (fun b => no_hit carlito_only filename b = true) bpre /\
    hit carlito_only filename base
        "/usr/share/fonts/truetype/crosextra/Carlito-Regular.ttf".
Proof.
  apply (get_font_path_first_candidate carlito_only Calibri).
  vm_compute. reflexivity.
Defined.

Lemma get_font_path_helvetica_fallback_witness :
  Widths._get_font_path arial_only Helvetica = Return "/usr/share/fonts/Arial.ttf"%string
  <-> Widths._get_font_path arial_only Arial = Return "/usr/share/fonts/Arial.ttf"%string.
Proof.
  apply (get_font_path_helvetica_fallback arial_only).
  - repeat constructor; vm_compute; reflexivity.
  - repeat constructor; vm_compute; reflexivity.
Defined.

Example get_font_path_arial_only :
  Widths._get_font_path arial_only Helvetica = Return "/usr/share/fonts/Arial.ttf"%string /\
  Widths._get_font_path arial_only Arial = Return "/usr/share/fonts/Arial.ttf"%string.
Proof. split; vm_compute; reflexivity. Qed.

Lemma FontCache_init_loads_witness :
  exists cache,
    Widths.FontCache_init arial_only (Some [Helvetica; Arial]) = Return cache /\
    forall f,
      (f ∈ Widths.to_load (Some [Helvetica; Arial]) ->
       exists p, Widths._get_font_path arial_only f = Return p /\
                 Widths.faces cache !! f = Some (Widths.font_program arial_only p) /\
                 Widths.upem cache !! f =
                 Some (Widths.face_upem (Widths.font_program arial_only p))) /\
      (f ∉ Widths.to_load (Some [Helvetica; Arial]) ->
       Widths.faces cache !! f = None /\ Widths.upem cache !! f = None).
Proof.
  apply (FontCache_init_loads arial_only (Some [Helvetica; Arial])).
  intros f Hf. cbn in Hf.
  apply elem_of_cons in Hf as [-> | Hf]; [vm_compute; reflexivity|].
  apply list_elem_of_singleton in Hf. subst f. vm_compute. reflexivity.
Defined.

Definition arial_helvetica_cache : Widths.FontCache :=
  {| Widths.faces := <[Arial := sample_face]> (<[Helvetica := sample_face]> ∅);
     Widths.upem := <[Arial := 2048]> (<[Helvetica := 2048]> ∅) |}.


(** ** cache.py: fetching documents through a storage bucket *)

Module Cache.

(** *** String built-ins *)

(** [s.lstrip(c)] for a one-character [c]. *)
Fixpoint lstrip_char (c : ascii) (s : string) : string :=
  match s with
  | EmptyString => EmptyString
  | String a s' => if Ascii.eqb a c then lstrip_char c s' else s
  end.

(** [s.rstrip(c)] for a one-character [c]. *)
Fixpoint rstrip_char (c : ascii) (s : string) : string :=
  match s with
  | EmptyString => EmptyString
  | String a s' =>
      match rstrip_char c s' with
      | EmptyString => if Ascii.eqb a c then EmptyString else String a EmptyString
      | r => String a r
      end
  end.

(** [s[n:]] *)
Fixpoint str_drop (n : nat) (s : string) : string :=
  match n, s with
  | O, _ => s
  | S _, EmptyString => EmptyString
  | S n', String _ s' => str_drop n' s'
  end.

(** [s.endswith(suffix)] *)
Definition ends_with (suffix s : string) : bool :=
  (String.length suffix <=? String.length s)%nat &&
  String.eqb (str_drop (String.length s - String.length suffix) s) suffix.

Fixpoint has_char (c : ascii) (s : string) : bool :=
  match s with
  | EmptyString => false
  | String a s' => Ascii.eqb a c || has_char c s'
  end.

Definition apostrophe : ascii := ascii_of_N 39.
Definition double_quote : ascii := ascii_of_N 34.
Definition backslash : ascii := ascii_of_N 92.

Definition hex_digit (n : N) : ascii :=
  if (n <? 10)%N then ascii_of_N (48 + n) else ascii_of_N (87 + n).

(** One character of [repr(s)] inside the quotes [quote]; characters are
    read as code points below 256. *)
Definition repr_char (quote c : ascii) : string :=
  let n := N_of_ascii c in
  if Ascii.eqb c quote || Ascii.eqb c backslash
  then String backslash (String c EmptyString)
  else if (n =? 9)%N then String backslash "t"
  else if (n =? 10)%N then String backslash "n"
  else if (n =? 13)%N then String backslash "r"
  else if ((n <? 32) || ((127 <=? n) && (n <=? 160)) || (n =? 173))%N
  then String backslash
         (String "x" (String (hex_digit (n / 16)) (String (hex_digit (n mod 16))
                                                          EmptyString)))
  else String c EmptyString.

Fixpoint repr_body (quote : ascii) (s : string) : string :=
  match s with
  | EmptyString => EmptyString
  | String c s' => (repr_char quote c ++ repr_body quote s')%string
  end.

(** [repr(s)]: apostrophes around the text, double quotes when the text
    has an apostrophe and no double quote. *)
Definition py_repr (s : string) : string :=
  let quote :=
    if has_char apostrophe s && negb (has_char double_quote s)
    then double_quote else apostrophe in
  (String quote (repr_body quote s) ++ String quote EmptyString)%string.

(** [str(l)] of a list of strings. *)
Definition py_str_list (l : list string) : string :=
  ("[" ++ Widths.py_join ", " (map py_repr l) ++ "]")%string.

(** *** urllib.parse *)

(** The parts of a parsed URL the module reads. [hostname] is [None] when
    the URL has no network location. *)
Record ParseResult : Type := mkParseResult {
  scheme : string;
  hostname : option string;
  path : string
}.

(** [urlparse] and [unquote] of the standard library; [urlparse] raises
    on some malformed network locations. *)
Record Urllib : Type := mkUrllib {
  urlparse : string -> result ParseResult;
  unquote : string -> string
}.

(** [f"{h}"] of an optional string. *)
Definition str_of_optional (h : option string) : string :=
  match h with
  | Some s => s
  | None => "None"
  end.

(** *** settings.py *)

Record Settings : Type := mkSettings {
  storage_bucket : string;
  allowed_domains : list string
}.

(** The field defaults of [Settings]. *)
Definition Settings_default : Settings :=
  {| storage_bucket := EmptyString;
     allowed_domains := ["justice.gov"; "www.justice.gov"]%string |}.

(** *** Pure helpers of cache.py *)

Definition _to_archive_url (url : string) : string :=
  ("https://web.archive.org/web/" ++ url)%string.

(** The test under [any(...)] for one domain. *)
Definition domain_matches (hostname domain : string) : bool :=
  String.eqb hostname domain || ends_with ("." ++ domain) hostname.

Definition validate_url (lib : Urllib) (url : string)
  (allowed : option (list string)) : result unit :=
  parsed ← urlparse lib url;
  if negb (String.eqb (scheme parsed) "http" || String.eqb (scheme parsed) "https")
  then Raise (ValueError ("URL must use http or https scheme, got "
                            ++ py_repr (scheme parsed) ++ ": " ++ url))
  else
    match hostname parsed with
    | None | Some EmptyString => Raise (ValueError ("URL has no hostname: " ++ url))
    | Some host =>
        if negb (SpanExtractor.str_bool (path parsed)) || String.eqb (path parsed) "/"
        then Raise (ValueError ("URL has no path: " ++ url))
        else
          match allowed with
          | None => Return tt
          | Some domains =>
              let hostname := str_lower host in
              if negb (existsb (domain_matches hostname) domains)
              then Raise (ValueError ("Domain " ++ py_repr hostname
                                        ++ " is not in the allowed list: "
                                        ++ py_str_list domains))
              else Return tt
          end
    end.

Definition url_to_blob_path (lib : Urllib) (url : string) : result string :=
  _ ← validate_url lib url None;
  parsed ← urlparse lib url;
  let path := lstrip_char "/" (unquote lib (path parsed)) in
  Return (str_of_optional (hostname parsed) ++ "/" ++ path)%string.

Definition _bucket_name (settings : Settings) : string :=
  let name := storage_bucket settings in
  let name := if starts_with "gs://" name
              then str_drop (String.length "gs://") name else name in
  rstrip_char "/" name.

(** *** The services behind the module *)

(** What a call can end with besides a value: an exception of the modelled
    code, one of the two [httpx] errors the service tells apart, or an
    exception of the storage client (named by its class). *)
Inductive error : Type :=
| Python (e : exn)
| RequestError (msg : string)
| HTTPStatusError (status_code : Z)
| StorageError (name : string).

Inductive outcome (A : Type) : Type :=
| Ok (v : A)
| Fail (e : error).
Arguments Ok {A} v.
Arguments Fail {A} e.

(** The calls into the storage client. *)
Inductive StorageCall : Type :=
| NewClient
| GetBucket (name : string)
| BlobExists (bucket blob : string)
| DownloadAsBytes (bucket blob : string)
| UploadFromString (bucket blob : string).

(** The outside world during one call: what an HTTP GET of a URL
    (redirects followed, then [raise_for_status], then [content]) ends
    with, and which storage calls raise. *)
Record Services : Type := mkServices {
  http_get : string -> outcome bytes;
  storage_fault : StorageCall -> option error
}.

(** The state the module acts on: the objects in storage, by bucket and
    object name, each with its content and content type, and the URLs
    requested over HTTP so far, oldest first. *)
Record Cloud : Type := mkCloud {
  blobs : gmap (string * string) (bytes * string);
  requests : list string
}.

Definition IO (A : Type) : Type := Cloud -> Cloud * outcome A.

Definition io_ret {A} (v : A) : IO A := fun c => (c, Ok v).

Definition io_bind {A B} (m : IO A) (k : A -> IO B) : IO B :=
  fun c =>
    match m c with
    | (c', Ok v) => k v c'
    | (c', Fail e) => (c', Fail e)
    end.

#[global] Instance IO_ret : MRet IO := @io_ret.
#[global] Instance IO_bind : MBind IO := fun A B k m => io_bind m k.

(** A call of pure code inside an effectful function. *)
Definition lift_result {A} (r : result A) : IO A :=
  fun c =>
    match r with
    | Return v => (c, Ok v)
    | Raise e => (c, Fail (Python e))
    end.

(** A storage call without a result. *)
Definition storage_call (sv : Services) (call : StorageCall) : IO unit :=
  fun c =>
    match storage_fault sv call with
    | Some e => (c, Fail e)
    | None => (c, Ok tt)
    end.

(** [blob.exists()] *)
Definition blob_exists (sv : Services) (bucket blob : string) : IO bool :=
  fun c =>
    match storage_fault sv (BlobExists bucket blob) with
    | Some e => (c, Fail e)
    | None => (c, Ok (bool_decide (is_Some (blobs c !! (bucket, blob)))))
    end.

(** [blob.download_as_bytes()] *)
Definition blob_download_as_bytes (sv : Services) (bucket blob : string)
  : IO bytes :=
  fun c =>
    match storage_fault sv (DownloadAsBytes bucket blob) with
    | Some e => (c, Fail e)
    | None =>
        match blobs c !! (bucket, blob) with
        | Some (data, _) => (c, Ok data)
        | None => (c, Fail (StorageError "NotFound"))
        end
    end.

(** [blob.upload_from_string(data, content_type=...)] *)
Definition blob_upload_from_string (sv : Services) (bucket blob : string)
  (data : bytes) (content_type : string) : IO unit :=
  fun c =>
    match storage_fault sv (UploadFromString bucket blob) with
    | Some e => (c, Fail e)
    | None =>
        ({| blobs := <[(bucket, blob) := (data, content_type)]> (blobs c);
            requests := requests c |}, Ok tt)
    end.

(** The [with httpx.Client(follow_redirects=True)] block: one GET. *)
Definition http_download (sv : Services) (url : string) : IO bytes :=
  fun c =>
    ({| blobs := blobs c; requests := requests c ++ [url] |}, http_get sv url).

(** *** The cache *)

Record CacheResult : Type := mkCacheResult {
  source_url : string;
  storage_url : string;
  present : bool
}.

Definition check_cache (lib : Urllib) (sv : Services) (url : string)
  (settings : Settings) : IO CacheResult :=
  let bucket_name := _bucket_name settings in
  blob_path ← lift_result (url_to_blob_path lib url);
  let storage_url := ("gs://" ++ bucket_name ++ "/" ++ blob_path)%string in
  _ ← storage_call sv NewClient;
  _ ← storage_call sv (GetBucket bucket_name);
  exists_ ← blob_exists sv bucket_name blob_path;
  mret {| source_url := url; storage_url := storage_url; present := exists_ |}.

Definition ensure_in_cache (lib : Urllib) (sv : Services) (url : string)
  (settings : Settings) : IO CacheResult :=
  result ← check_cache lib sv url settings;
  if present result then mret result
  else
    let bucket_name := _bucket_name settings in
    blob_path ← lift_result (url_to_blob_path lib url);
    let archive_url := _to_archive_url url in
    data ← http_download sv archive_url;
    _ ← storage_call sv NewClient;
    _ ← storage_call sv (GetBucket bucket_name);
    _ ← blob_upload_from_string sv bucket_name blob_path data "application/pdf";
    mret {| source_url := url; storage_url := storage_url result; present := true |}.

Definition fetch_pdf (lib : Urllib) (sv : Services) (url : string)
  (settings : Settings) : IO bytes :=
  _ ← lift_result (validate_url lib url None);
  if negb (SpanExtractor.str_bool (storage_bucket settings))
  then http_download sv (_to_archive_url url)
  else
    let bucket_name := _bucket_name settings in
    blob_path ← lift_result (url_to_blob_path lib url);
    _ ← storage_call sv NewClient;
    _ ← storage_call sv (GetBucket bucket_name);
    exists_ ← blob_exists sv bucket_name blob_path;
    if (exists_ : bool) then blob_download_as_bytes sv bucket_name blob_path
    else
      data ← http_download sv (_to_archive_url url);
      _ ← blob_upload_from_string sv bucket_name blob_path data "application/pdf";
      mret data.

End Cache.

(** ** pdf_test_data.py: reading measured widths back *)

Module TestData.
Import SpanExtractor.

(** What the engine makes of the file at a path. *)
Definition PathParser : Type := string -> result (result (list Page)).

(** [fitz.open(str(pdf_path))] *)
Definition fitz_open_path (parse : PathParser) (pdf_path : string) : M Document :=
  fun w =>
    match parse pdf_path with
    | Raise e => (w, Raise e)
    | Return pages =>
        let h := next_handle w in
        ({| next_handle := S h; open_handles := {[h]} ∪ open_handles w |},
         Return {| doc_handle := h; doc_pages := pages |})
    end.

(** The body of the innermost loop: what one run appends to [results]. *)
Definition span_measure (span : Span) : list (string * Q) :=
  let text := span_text span in
  let bbox := span_bbox span in
  let width := (bbox.1.2 - bbox.1.1.1)%Q in
  if str_bool (strip text) then [(text, width)] else [].

Definition block_measures (block : Block) : list (string * Q) :=
  if negb (block_type block =? 0) then []
  else flat_map (fun line => flat_map span_measure (line_spans line))
                (block_lines block).

Definition page_measures (pg : Page) : list (string * Q) :=
  flat_map block_measures (page_blocks pg).

Definition read_text_widths (parse : PathParser) (pdf_path : string)
  : M (list (string * Q)) :=
  doc ← fitz_open_path parse pdf_path;
  results ← lift (pages ← doc_pages doc;
                  mret (flat_map page_measures pages));
  _ ← doc_close doc;
  mret results.

End TestData.

(** ** api.py: the width endpoint *)

Module Api.
Import Widths.

(** How a request handler ends: with a response, with an [HTTPException]
    it raised itself, or with an exception it did not catch. *)
Inductive outcome (A : Type) : Type :=
| Respond (v : A)
| HTTPException (status_code : Z) (detail : string)
| Uncaught (e : Cache.error).
Arguments Respond {A} v.
Arguments HTTPException {A} status_code detail.
Arguments Uncaught {A} e.

Record WidthRequest : Type := mkWidthRequest {
  strings : list string;
  font : FontT;
  size : Z;
  kerning : bool;
  ligatures : bool
}.

(** The field validator of [strings]. *)
Definition strip_whitespace (v : list string) : list string :=
  map SpanExtractor.strip v.

(** Building a [WidthRequest] from the submitted fields runs the
    validator. *)
Definition WidthRequest_new (strings : list string) (font : FontT) (size : Z)
  (kerning ligatures : bool) : WidthRequest :=
  {| strings := strip_whitespace strings;
     font := font; size := size; kerning := kerning; ligatures := ligatures |}.

Record WidthResult : Type := mkWidthResult {
  text : string;
  width : Z
}.

Record WidthResponse : Type := mkWidthResponse {
  resp_font : string;
  resp_size : Z;
  resp_kerning : bool;
  resp_ligatures : bool;
  results : list WidthResult
}.

(** The list comprehension over [request.strings], evaluated left to
    right. *)
Fixpoint width_results (request : WidthRequest) (cache : FontCache)
  (ss : list string) : result (list WidthResult) :=
  match ss with
  | [] => mret []
  | s :: rest =>
      w ← calculate_width s (font request) (size request) cache
            (kerning request) (ligatures request);
      rs ← width_results request cache rest;
      mret ({| text := s; width := w |} :: rs)
  end.

Definition calculate_widths (font_cache : option FontCache)
  (request : WidthRequest) : outcome WidthResponse :=
  match font_cache with
  | None => HTTPException 503 "Font cache not initialized"
  | Some cache =>
      match width_results request cache (strings request) with
      | Raise e => Uncaught (Cache.Python e)
      | Return results =>
          Respond {| resp_font := FontT_name (font request);
                     resp_size := size request;
                     resp_kerning := kerning request;
                     resp_ligatures := ligatures request;
                     results := results |}
      end
  end.

(** The font cache the service builds at start-up. *)
Definition lifespan (pf : Platform) : result FontCache :=
  FontCache_init pf (Some (map fst FONT_FILES)).

(** *** PDF analysis by URL *)

(** [f"{n}"] of an integer. *)
Definition str_of_int (n : Z) : string := NilZero.string_of_int (Z.to_int n).

Record FontInfoResult : Type := mkFontInfoResult {
  fi_name : string;
  fi_size : Z;
  fi_bold : bool;
  fi_italic : bool;
  fi_matched_font : option string
}.

Record TextSpanResult : Type := mkTextSpanResult {
  ts_text : string;
  ts_font : FontInfoResult;
  ts_page : Z;
  ts_bbox : Q * Q * Q * Q
}.

Record FontAnalysisResponse : Type := mkFontAnalysisResponse {
  fa_url : string;
  fa_spans : list TextSpanResult
}.

Record UrlRequest : Type := mkUrlRequest {
  url : string
}.

Definition text_span_result (s : SpanExtractor.TextSpan) : TextSpanResult :=
  {| ts_text := SpanExtractor.text s;
     ts_font :=
       {| fi_name := SpanExtractor.name (SpanExtractor.font s);
          fi_size := SpanExtractor.size (SpanExtractor.font s);
          fi_bold := SpanExtractor.bold (SpanExtractor.font s);
          fi_italic := SpanExtractor.italic (SpanExtractor.font s);
          fi_matched_font :=
            FontT_name <$> SpanExtractor.matched_font (SpanExtractor.font s) |};
     ts_page := SpanExtractor.page s;
     ts_bbox := SpanExtractor.bbox s |}.

Definition analyse_fonts_by_url (lib : Cache.Urllib) (sv : Cache.Services)
  (parse : Parser) (settings : option Cache.Settings) (request : UrlRequest)
  (c : Cache.Cloud) (w : World)
  : Cache.Cloud * World * outcome FontAnalysisResponse :=
  match settings with
  | None => (c, w, HTTPException 503 "Settings not initialized")
  | Some settings =>
      match Cache.validate_url lib (url request)
                               (Some (Cache.allowed_domains settings)) with
      | Raise (ValueError msg) => (c, w, HTTPException 400 msg)
      | Raise e => (c, w, Uncaught (Cache.Python e))
      | Return _ =>
          match Cache.fetch_pdf lib sv (url request) settings c with
          | (c', Cache.Fail (Cache.HTTPStatusError status_code)) =>
              (c', w, HTTPException 502 ("Failed to fetch PDF: "
                                           ++ str_of_int status_code))
          | (c', Cache.Fail (Cache.RequestError msg)) =>
              (c', w, HTTPException 502 ("Failed to fetch PDF: " ++ msg))
          | (c', Cache.Fail e) => (c', w, Uncaught e)
          | (c', Cache.Ok pdf_bytes) =>
              match SpanExtractor.extract_font_info parse pdf_bytes w with
              | (w', Raise e) => (c', w', Uncaught (Cache.Python e))
              | (w', Return spans) =>
                  (c', w', Respond {| fa_url := url request;
                                      fa_spans := map text_span_result spans |})
              end
          end
      end
  end.

Record RedactionBoxResult : Type := mkRedactionBoxResult {
  rb_page : Z;
  rb_bbox : Q * Q * Q * Q;
  rb_width : Q;
  rb_height : Q
}.

Record RedactionsResponse : Type := mkRedactionsResponse {
  rr_url : string;
  rr_redactions : list RedactionBoxResult
}.

Definition redaction_box_result (b : Redactions.RedactionBox)
  : RedactionBoxResult :=
  {| rb_page := Redactions.page b;
     rb_bbox := Redactions.bbox b;
     rb_width := Redactions.width b;
     rb_height := Redactions.height b |}.

Definition find_redactions_by_url (lib : Cache.Urllib) (sv : Cache.Services)
  (parse : Parser) (settings : option Cache.Settings) (request : UrlRequest)
  (c : Cache.Cloud) (w : World)
  : Cache.Cloud * World * outcome RedactionsResponse :=
  match settings with
  | None => (c, w, HTTPException 503 "Settings not initialized")
  | Some settings =>
      match Cache.validate_url lib (url request)
                               (Some (Cache.allowed_domains settings)) with
      | Raise (ValueError msg) => (c, w, HTTPException 400 msg)
      | Raise e => (c, w, Uncaught (Cache.Python e))
      | Return _ =>
          match Cache.fetch_pdf lib sv (url request) settings c with
          | (c', Cache.Fail (Cache.HTTPStatusError status_code)) =>
              (c', w, HTTPException 502 ("Failed to fetch PDF: "
                                           ++ str_of_int status_code))
          | (c', Cache.Fail (Cache.RequestError msg)) =>
              (c', w, HTTPException 502 ("Failed to fetch PDF: " ++ msg))
          | (c', Cache.Fail e) => (c', w, Uncaught e)
          | (c', Cache.Ok pdf_bytes) =>
              match Redactions.find_redactions parse pdf_bytes w with
              | (w', Raise e) => (c', w', Uncaught (Cache.Python e))
              | (w', Return boxes) =>
                  (c', w', Respond {| rr_url := url request;
                                      rr_redactions :=
                                        map redaction_box_result boxes |})
              end
          end
      end
  end.

End Api.

(** ** The measurement helper and the extractor see the same runs *)

Section Measurements.
Import SpanExtractor TestData.

(** The pair the measurement helper reports for a span record. *)
Definition measure_of (r : TextSpan) : string * Q :=
  (text r, ((bbox r).1.2 - (bbox r).1.1.1)%Q).

Lemma span_record_measure n span :
  map measure_of (span_record n span) = span_measure span.
Proof.
  unfold span_record, span_measure.
  destruct (str_bool (strip (span_text span))); reflexivity.
Qed.

Lemma page_records_measure n pg :
  map measure_of (page_records n pg) = page_measures pg.
Proof.
  unfold page_records, page_measures. rewrite map_flat_map.
  apply flat_map_ext. intros blk. unfold block_records, block_measures.
  destruct (negb (block_type blk =? 0)); [reflexivity|].
  rewrite map_flat_map. apply flat_map_ext. intros line.
  rewrite map_flat_map. apply flat_map_ext. intros span.
  apply span_record_measure.
Qed.

Lemma document_records_measure k pages :
  map measure_of (flat_map (fun '(page_num, pg) => page_records page_num pg)
                           (enumerate_from k pages)) =
  flat_map page_measures pages.
Proof.
  revert k. induction pages as [|pg pages IH]; intros k; cbn; [reflexivity|].
  rewrite map_app, page_records_measure, IH. reflexivity.
Qed.

Lemma read_text_widths_run parse pdf_path w :
  read_text_widths parse pdf_path w =
  match parse pdf_path with
  | Raise e => (w, Raise e)
  | Return (Raise e) => (opened w, Raise e)
  | Return (Return pages) =>
      (closed (next_handle w) (opened w), Return (flat_map page_measures pages))
  end.
Proof.
  unfold read_text_widths, mbind, M_bind, m_bind, fitz_open_path, lift.
  destruct (parse pdf_path) as [[pages|e]|e]; reflexivity.
Qed.

(** X19. On the same document, [read_text_widths] reports exactly the
    spans [extract_font_info] returns, in the same order: for each span
    its text as it is and the width [bbox[2] - bbox[0]] of its bounding
    box. *)
Theorem read_text_widths_agrees_with_extractor
        path_parse parse pdf_path pdf_bytes w1 w1' w2 w2' measured spans :
  path_parse pdf_path = parse pdf_bytes ->
  read_text_widths path_parse pdf_path w1 = (w1', Return measured) ->
  extract_font_info parse pdf_bytes w2 = (w2', Return spans) ->
  measured = map measure_of spans.
Proof.
  intros Hsame. rewrite read_text_widths_run, extract_font_info_run, Hsame.
  destruct (parse pdf_bytes) as [[pages|e]|e]; try discriminate.
  unfold collect. cbn [doc_pages mbind result_bind rbind mret result_ret].
  intros [= _ <-] [= _ <-]. symmetry. apply document_records_measure.
Qed.

End Measurements.

Lemma read_text_widths_agrees_with_extractor_witness :
  [("  Hello "%string, (90 - 50)%Q); ("World"%string, (92 - 50)%Q)]
  = map measure_of sample_spans.
Proof.
  apply (read_text_widths_agrees_with_extractor
           (fun _ => Return (Return [sample_text_page])) sample_text_pdf
           "sample.pdf" [] no_handles
           (TestData.read_text_widths (fun _ => Return (Return [sample_text_page]))
                                      "sample.pdf" no_handles).1
           no_handles
           (SpanExtractor.extract_font_info sample_text_pdf [] no_handles).1).
  - reflexivity.
  - rewrite (surjective_pairing (TestData.read_text_widths _ _ _)) at 1.
    apply pair_equal_spec. split; [reflexivity | vm_compute; reflexivity].
  - rewrite (surjective_pairing (SpanExtractor.extract_font_info _ _ _)) at 1.
    apply pair_equal_spec. split; [reflexivity | vm_compute; reflexivity].
Defined.

(** ** The width endpoint on the start-up cache *)

Section WidthEndpoint.
Import Widths Api.




Lemma width_results_key_error request cache s ss :
  faces cache !! font request = None ->
  width_results request cache (s :: ss) = Raise KeyError.
Proof.
  intros Hf. cbn [width_results]. unfold calculate_width, gmap_getitem.
  rewrite Hf. reflexivity.
Qed.


(** X21. Without a font cache the width endpoint raises HTTP 503. With a
    cache that lacks the requested family it lets [KeyError] through as
    soon as there is one string to measure, and responds with an empty
    result list when there is none. *)
Theorem calculate_widths_unavailable request cache :
  faces cache !! font request = None ->
  calculate_widths None request
  = HTTPException 503 "Font cache not initialized"
  /\ match strings request with
     | [] => exists resp,
               calculate_widths (Some cache) request = Respond resp /\
               results resp = []
     | _ :: _ => calculate_widths (Some cache) request
                 = Uncaught (Cache.Python KeyError)
     end.
Proof.
  intros Hf. split; [reflexivity|]. unfold calculate_widths.
  destruct (strings request) as [|s ss].
  - cbn. eauto.
  - rewrite (width_results_key_error request cache s ss Hf). reflexivity.
Qed.

End WidthEndpoint.

(** A machine with every first-choice font file directly in
    /usr/share/fonts. *)
Definition all_fonts_installed : Widths.Platform :=
  {| Widths.system := "Linux";
     Widths.home := "/home/user";
     Widths.path_exists := fun p =>
       existsb (String.eqb p)
               [ "/usr/share/fonts/Arial.ttf";
                 "/usr/share/fonts/Calibri.ttf";
                 "/usr/share/fonts/Cambria.ttf";
                 "/usr/share/fonts/Courier New.ttf";
                 "/usr/share/fonts/Helvetica.ttc";
                 "/usr/share/fonts/Times New Roman.ttf" ]%string;
     Widths.rglob := fun _ _ => [];
     Widths.font_program := fun _ => sample_face |}.

Definition startup_cache : Widths.FontCache :=
  Eval vm_compute in
    match Api.lifespan all_fonts_installed with
    | Return c => c
    | Raise _ => {| Widths.faces := ∅; Widths.upem := ∅ |}
    end.


Example calculate_widths_sample :
  Api.calculate_widths (Some startup_cache)
    (Api.WidthRequest_new [" Wii "; "i"]%string TimesNewRoman 12 true true)
  = Api.Respond
      {| Api.resp_font := "times new roman"; Api.resp_size := 12;
         Api.resp_kerning := true; Api.resp_ligatures := true;
         Api.results := [ Api.mkWidthResult "Wii" 17; Api.mkWidthResult "i" 3 ] |}.
Proof. vm_compute. reflexivity. Qed.

Lemma calculate_widths_unavailable_witness :
  Api.calculate_widths None
    (Api.WidthRequest_new ["Wii"]%string Cambria 12 true true)
  = Api.HTTPException 503 "Font cache not initialized"
  /\ Api.calculate_widths (Some arial_helvetica_cache)
       (Api.WidthRequest_new ["Wii"]%string Cambria 12 true true)
     = Api.Uncaught (Cache.Python KeyError).
Proof.
  apply (calculate_widths_unavailable
           (Api.WidthRequest_new ["Wii"]%string Cambria 12 true true)
           arial_helvetica_cache).
  vm_compute. reflexivity.
Defined.

(** ** cache.py: string helpers *)

Section CacheStrings.
Import Cache.

Lemma str_app_cons (a : ascii) (s t : string) :
  (String a s ++ t)%string = String a (s ++ t)%string.
Proof. reflexivity. Qed.

Lemma str_app_nil_r (s : string) : (s ++ EmptyString)%string = s.
Proof.
  induction s as [|a s IH]; [reflexivity|].
  rewrite str_app_cons, IH. reflexivity.
Qed.

Lemma str_length_app (a b : string) :
  String.length (a ++ b)%string = (String.length a + String.length b)%nat.
Proof.
  induction a as [|x a IH]; [reflexivity|].
  rewrite str_app_cons. cbn [String.length]. rewrite IH. reflexivity.
Qed.

Lemma str_drop_app (pre suf : string) :
  str_drop (String.length pre) (pre ++ suf)%string = suf.
Proof.
  induction pre as [|x pre IH]; [reflexivity|].
  rewrite str_app_cons. cbn [String.length str_drop]. exact IH.
Qed.

Lemma str_drop_split (n : nat) (s : string) :
  exists pre, s = (pre ++ str_drop n s)%string.
Proof.
  revert s. induction n as [|n IH]; intros s.
  - exists EmptyString. reflexivity.
  - destruct s as [|a s].
    + exists EmptyString. reflexivity.
    + destruct (IH s) as [pre Hpre]. exists (String a pre).
      rewrite str_app_cons. cbn [str_drop]. f_equal. exact Hpre.
Qed.

(** [endswith] decides that the text ends in the suffix. *)
Lemma ends_with_spec (suffix s : string) :
  ends_with suffix s = true <-> exists pre, s = (pre ++ suffix)%string.
Proof.
  unfold ends_with. rewrite andb_true_iff, Nat.leb_le, String.eqb_eq. split.
  - intros [_ Hdrop].
    destruct (str_drop_split (String.length s - String.length suffix) s)
      as [pre Hpre].
    exists pre. rewrite Hdrop in Hpre. exact Hpre.
  - intros [pre ->]. rewrite str_length_app. split; [lia|].
    replace (String.length pre + String.length suffix - String.length suffix)%nat
      with (String.length pre) by lia.
    apply str_drop_app.
Qed.

(** A run of [k] slashes. *)
Fixpoint slashes (k : nat) : string :=
  match k with
  | O => EmptyString
  | S k' => String "/" (slashes k')
  end.

(** The text does not end in a slash. *)
Definition no_trailing_slash (s : string) : Prop :=
  forall pre, s <> (pre ++ "/")%string.

Lemma rstrip_char_slashes (k : nat) : rstrip_char "/" (slashes k) = EmptyString.
Proof.
  induction k as [|k IH]; [reflexivity|].
  cbn [slashes rstrip_char]. rewrite IH. reflexivity.
Qed.

Lemma rstrip_char_restores (n : string) (k : nat) :
  no_trailing_slash n -> rstrip_char "/" (n ++ slashes k)%string = n.
Proof.
  induction n as [|a n IH]; intros Hn.
  - apply rstrip_char_slashes.
  - rewrite str_app_cons. cbn [rstrip_char].
    destruct n as [|b n].
    + change (EmptyString ++ slashes k)%string with (slashes k).
      rewrite rstrip_char_slashes.
      destruct (Ascii.eqb a "/") eqn:E; [|reflexivity].
      apply Ascii.eqb_eq in E. subst a.
      exfalso. apply (Hn EmptyString). reflexivity.
    + rewrite IH; [reflexivity|].
      intros pre Hpre. apply (Hn (String a pre)).
      rewrite str_app_cons, <- Hpre. reflexivity.
Qed.

Lemma rstrip_char_no_trailing (s : string) :
  no_trailing_slash (rstrip_char "/" s).
Proof.
  induction s as [|a s IH]; intros pre Hpre.
  - destruct pre; discriminate.
  - cbn [rstrip_char] in Hpre.
    destruct (rstrip_char "/" s) as [|b r] eqn:E.
    + destruct (Ascii.eqb a "/") eqn:Ea.
      * destruct pre; discriminate.
      * destruct pre as [|x [|y pre]]; try discriminate.
        injection Hpre as ->. discriminate.
    + destruct pre as [|x pre].
      * discriminate.
      * rewrite str_app_cons in Hpre. injection Hpre as _ Hr.
        exact (IH pre Hr).
Qed.

End CacheStrings.

(** ** cache.py: bucket names and URL validation *)

Section UrlValidation.
Import Cache.

(** X22. [_bucket_name] never ends in a slash, and it recovers a bare
    bucket name (one without a trailing slash) from either way of writing
    it in the settings: with the gs:// prefix or without, followed by any
    number of slashes. *)
Theorem bucket_name_normal_form (name : string) (k : nat) (domains : list string) :
  no_trailing_slash name ->
  (forall settings, no_trailing_slash (_bucket_name settings)) /\
  _bucket_name {| storage_bucket := "gs://" ++ name ++ slashes k;
                  allowed_domains := domains |} = name /\
  (starts_with "gs://" (name ++ slashes k) = false ->
   _bucket_name {| storage_bucket := name ++ slashes k;
                   allowed_domains := domains |} = name).
Proof.
  intros Hn. split; [|split].
  - intros settings. apply rstrip_char_no_trailing.
  - unfold _bucket_name. cbn [storage_bucket].
    assert (E : starts_with "gs://" ("gs://" ++ name ++ slashes k) = true).
    { apply starts_with_spec. eexists. reflexivity. }
    rewrite E. rewrite (str_drop_app "gs://").
    apply rstrip_char_restores, Hn.
  - intros E. unfold _bucket_name. cbn [storage_bucket]. rewrite E.
    apply rstrip_char_restores, Hn.
Qed.

(** What the three shape checks of [validate_url] require of the parsed
    URL; [host] is its host name. *)
Definition fetchable (parsed : ParseResult) (host : string) : Prop :=
  (scheme parsed = "http" \/ scheme parsed = "https") /\
  hostname parsed = Some host /\ host <> EmptyString /\
  path parsed <> EmptyString /\ path parsed <> "/".

(** [host] is [domain] or a name below it. *)
Definition under_domain (host domain : string) : Prop :=
  host = domain \/ exists sub, host = (sub ++ "." ++ domain)%string.

Lemma domain_matches_spec (host domain : string) :
  domain_matches host domain = true <-> under_domain host domain.
Proof.
  unfold domain_matches, under_domain.
  rewrite orb_true_iff, String.eqb_eq, ends_with_spec. reflexivity.
Qed.

Lemma validate_url_shape lib url allowed :
  is_return (validate_url lib url allowed) = true ->
  exists parsed host, urlparse lib url = Return parsed /\ fetchable parsed host.
Proof.
  unfold validate_url. destruct (urlparse lib url) as [parsed|e]; [|discriminate].
  cbn [mbind result_bind rbind].
  destruct (String.eqb (scheme parsed) "http") eqn:E1;
    [|destruct (String.eqb (scheme parsed) "https") eqn:E2; [|discriminate]];
    cbn [orb negb].
  all: destruct (hostname parsed) as [[|a host]|] eqn:Eh; [discriminate| |discriminate].
  all: destruct (path parsed) as [|b p] eqn:Ep; [discriminate|].
  all: cbn [SpanExtractor.str_bool negb orb].
  all: destruct (String.eqb (String b p) "/") eqn:E3; [discriminate|].
  all: intros _; exists parsed, (String a host); split; [reflexivity|].
  all: unfold fetchable; rewrite Eh, Ep.
  all: apply String.eqb_neq in E3.
  - apply String.eqb_eq in E1. repeat split; auto; discriminate.
  - apply String.eqb_eq in E2. repeat split; auto; discriminate.
Qed.

Lemma validate_url_fetchable lib url allowed parsed host :
  urlparse lib url = Return parsed -> fetchable parsed host ->
  validate_url lib url allowed =
  match allowed with
  | None => Return tt
  | Some domains =>
      if negb (existsb (domain_matches (str_lower host)) domains)
      then Raise (ValueError ("Domain " ++ py_repr (str_lower host)
                                ++ " is not in the allowed list: "
                                ++ py_str_list domains))
      else Return tt
  end.
Proof.
  intros Hp (Hs & Hh & Hne & Hp1 & Hp2). unfold validate_url. rewrite Hp.
  cbn [mbind result_bind rbind].
  assert (E : String.eqb (scheme parsed) "http" || String.eqb (scheme parsed) "https"
              = true).
  { apply orb_true_iff. rewrite !String.eqb_eq. exact Hs. }
  rewrite E. cbn [negb]. rewrite Hh.
  destruct host as [|a host]; [congruence|].
  destruct (path parsed) as [|b p]; [congruence|].
  cbn [SpanExtractor.str_bool negb orb].
  apply String.eqb_neq in Hp2. rewrite Hp2. reflexivity.
Qed.

Lemma validate_url_None lib url :
  validate_url lib url None = Return tt <->
  exists parsed host, urlparse lib url = Return parsed /\ fetchable parsed host.
Proof.
  split.
  - intros H. apply (validate_url_shape lib url None). rewrite H. reflexivity.
  - intros (parsed & host & Hp & Hf).
    rewrite (validate_url_fetchable lib url None parsed host Hp Hf). reflexivity.
Qed.

Lemma validate_url_allowed lib url domains :
  validate_url lib url (Some domains) = Return tt <->
  exists parsed host,
    urlparse lib url = Return parsed /\ fetchable parsed host /\
    exists domain, domain ∈ domains /\ under_domain (str_lower host) domain.
Proof.
  split.
  - intros H.
    destruct (validate_url_shape lib url (Some domains)) as (parsed & host & Hp & Hf).
    { rewrite H. reflexivity. }
    exists parsed, host. split; [exact Hp|]. split; [exact Hf|].
    rewrite (validate_url_fetchable lib url _ parsed host Hp Hf) in H.
    destruct (existsb (domain_matches (str_lower host)) domains) eqn:E;
      [|discriminate].
    apply existsb_exists in E. destruct E as (d & Hd & Hm).
    exists d. split; [apply list_elem_of_In, Hd | apply domain_matches_spec, Hm].
  - intros (parsed & host & Hp & Hf & d & Hd & Hu).
    rewrite (validate_url_fetchable lib url _ parsed host Hp Hf).
    assert (E : existsb (domain_matches (str_lower host)) domains = true).
    { apply existsb_exists. exists d.
      split; [apply list_elem_of_In, Hd | apply domain_matches_spec, Hu]. }
    rewrite E. reflexivity.
Qed.

(** X23. [validate_url] with an allow-list accepts a URL exactly when
    [urlparse] succeeds on it, the scheme is http or https, the host name
    and the path are present (the path not just a slash), and the
    lower-cased host name is a listed domain or ends in a dot followed by
    one: a host that merely ends in the letters of a listed domain is
    refused. Every URL it accepts is also accepted without a list. *)
Theorem validate_url_accepts lib url domains :
  (validate_url lib url (Some domains) = Return tt <->
   exists parsed host,
     urlparse lib url = Return parsed /\ fetchable parsed host /\
     exists domain, domain ∈ domains /\ under_domain (str_lower host) domain) /\
  (validate_url lib url (Some domains) = Return tt ->
   validate_url lib url None = Return tt).
Proof.
  split; [apply validate_url_allowed|].
  intros H. apply validate_url_allowed in H.
  destruct H as (parsed & host & Hp & Hf & _).
  apply validate_url_None. eauto.
Qed.

(** Some character is an ASCII capital. *)
Fixpoint has_upper (s : string) : bool :=
  match s with
  | EmptyString => false
  | String c s' =>
      ((65 <=? N_of_ascii c) && (N_of_ascii c <=? 90))%N || has_upper s'
  end.

Lemma has_upper_app (a b : string) :
  has_upper (a ++ b)%string = has_upper a || has_upper b.
Proof.
  induction a as [|x a IH]; [reflexivity|].
  rewrite str_app_cons. cbn [has_upper]. rewrite IH, orb_assoc. reflexivity.
Qed.

Lemma lower_ascii_not_upper (c : ascii) :
  ((65 <=? N_of_ascii (lower_ascii c)) && (N_of_ascii (lower_ascii c) <=? 90))%N
  = false.
Proof. destruct c as [[] [] [] [] [] [] [] []]; reflexivity. Qed.

Lemma has_upper_lower (s : string) : has_upper (str_lower s) = false.
Proof.
  induction s as [|c s IH]; [reflexivity|].
  cbn [str_lower has_upper]. rewrite lower_ascii_not_upper, IH. reflexivity.
Qed.

Lemma domain_matches_upper (host domain : string) :
  has_upper domain = true -> domain_matches (str_lower host) domain = false.
Proof.
  intros Hd. destruct (domain_matches (str_lower host) domain) eqn:E; [|reflexivity].
  apply domain_matches_spec in E.
  pose proof (has_upper_lower host) as Hl.
  destruct E as [E | [sub E]]; rewrite E in Hl.
  - congruence.
  - rewrite !has_upper_app, Hd, !orb_true_r in Hl. discriminate.
Qed.

Lemma existsb_drop_upper (host : string) (domains : list string) :
  existsb (domain_matches (str_lower host)) domains
  = existsb (domain_matches (str_lower host))
            (List.filter (fun d => negb (has_upper d)) domains).
Proof.
  induction domains as [|d ds IH]; [reflexivity|].
  cbn [existsb List.filter]. destruct (has_upper d) eqn:E; cbn [negb].
  - rewrite (domain_matches_upper host d E). exact IH.
  - cbn [existsb]. rewrite IH. reflexivity.
Qed.

(** X24. The host name is lower-cased before the comparison and the
    listed domains are not, so an allow-list entry with a capital letter
    admits nothing: [validate_url] accepts the same URLs with such
    entries removed from the list. *)
Theorem validate_url_ignores_capitalised_domains lib url domains :
  is_return (validate_url lib url (Some domains))
  = is_return (validate_url lib url
                 (Some (List.filter (fun d => negb (has_upper d)) domains))).
Proof.
  destruct (is_return (validate_url lib url (Some domains))) eqn:E.
  - destruct (validate_url_shape lib url _ E) as (parsed & host & Hp & Hf).
    rewrite (validate_url_fetchable lib url (Some domains) parsed host Hp Hf) in E.
    rewrite (validate_url_fetchable lib url _ parsed host Hp Hf).
    rewrite <- existsb_drop_upper.
    destruct (existsb (domain_matches (str_lower host)) domains);
      [reflexivity | discriminate].
  - destruct (is_return (validate_url lib url (Some (List.filter _ domains)))) eqn:E';
      [|reflexivity].
    destruct (validate_url_shape lib url _ E') as (parsed & host & Hp & Hf).
    rewrite (validate_url_fetchable lib url (Some domains) parsed host Hp Hf) in E.
    rewrite (validate_url_fetchable lib url _ parsed host Hp Hf) in E'.
    rewrite <- existsb_drop_upper in E'.
    destruct (existsb (domain_matches (str_lower host)) domains);
      cbn in E, E'; congruence.
Qed.

Lemma url_to_blob_path_Return lib url blob :
  url_to_blob_path lib url = Return blob <->
  exists parsed host,
    urlparse lib url = Return parsed /\ fetchable parsed host /\
    blob = (host ++ "/" ++ lstrip_char "/" (unquote lib (path parsed)))%string.
Proof.
  unfold url_to_blob_path. split.
  - intros H. destruct (validate_url lib url None) as [[]|e] eqn:E; [|discriminate].
    apply validate_url_None in E. destruct E as (parsed & host & Hp & Hf).
    exists parsed, host. split; [exact Hp|]. split; [exact Hf|].
    cbn [mbind result_bind rbind] in H. rewrite Hp in H.
    cbn [mbind result_bind rbind] in H.
    destruct Hf as (_ & Hh & _). rewrite Hh in H. cbn [str_of_optional] in H.
    congruence.
  - intros (parsed & host & Hp & Hf & ->).
    rewrite (proj2 (validate_url_None lib url)) by eauto.
    cbn [mbind result_bind rbind]. rewrite Hp. cbn [mbind result_bind rbind].
    destruct Hf as (_ & Hh & _). rewrite Hh. reflexivity.
Qed.

Lemma url_to_blob_path_validates lib url blob :
  url_to_blob_path lib url = Return blob -> validate_url lib url None = Return tt.
Proof.
  intros H. apply url_to_blob_path_Return in H.
  destruct H as (parsed & host & Hp & Hf & _). apply validate_url_None. eauto.
Qed.

Lemma validate_url_blob_path lib url :
  validate_url lib url None = Return tt ->
  exists blob, url_to_blob_path lib url = Return blob.
Proof.
  intros H. apply validate_url_None in H. destruct H as (parsed & host & Hp & Hf).
  eexists. apply url_to_blob_path_Return. eauto.
Qed.

End UrlValidation.

(** ** cache.py: the cache protocol *)

Section CacheProtocol.
Import Cache.

Ltac run_io :=
  unfold mbind, IO_bind, io_bind, mret, IO_ret, io_ret, lift_result,
    storage_call, blob_exists, blob_download_as_bytes,
    blob_upload_from_string, http_download.

(** The object a URL is cached under. *)
Definition cache_key (settings : Settings) (blob : string) : string * string :=
  (_bucket_name settings, blob).

(** X25. [check_cache] only looks: it makes no HTTP request and changes no
    stored object, whatever it ends with; when it returns, it reports the
    URL it was given, the gs:// location built from the bucket name and
    the URL's object path, and whether that object is in storage. *)
Theorem check_cache_only_looks lib sv url settings c c' o :
  check_cache lib sv url settings c = (c', o) ->
  c' = c /\
  match o with
  | Ok r =>
      source_url r = url /\
      exists blob,
        url_to_blob_path lib url = Return blob /\
        storage_url r = ("gs://" ++ _bucket_name settings ++ "/" ++ blob)%string /\
        present r = bool_decide (is_Some (blobs c !! cache_key settings blob))
  | Fail e =>
      (exists x, e = Python x /\ url_to_blob_path lib url = Raise x) \/
      exists call, storage_fault sv call = Some e
  end.
Proof.
  unfold check_cache. run_io.
  destruct (url_to_blob_path lib url) as [blob|x].
  2:{ intros [= <- <-]. split; [reflexivity | left; eauto]. }
  destruct (storage_fault sv NewClient) as [e|] eqn:E1.
  { intros [= <- <-]. split; [reflexivity | right; eauto]. }
  destruct (storage_fault sv (GetBucket _)) as [e|] eqn:E2.
  { intros [= <- <-]. split; [reflexivity | right; eauto]. }
  destruct (storage_fault sv (BlobExists _ _)) as [e|] eqn:E3.
  { intros [= <- <-]. split; [reflexivity | right; eauto]. }
  intros [= <- <-]. split; [reflexivity|]. cbn. eauto.
Qed.

(** X26. When [ensure_in_cache] returns, the object is in storage and the
    result says so. If it was there before, nothing was requested and
    nothing changed; otherwise exactly one request went out, to the
    archive copy of the URL, and what it delivered is stored under the
    URL's object name as application/pdf, every other object untouched.
    When [ensure_in_cache] fails, storage is as it was. *)
Theorem ensure_in_cache_outcome lib sv url settings c c' o :
  ensure_in_cache lib sv url settings c = (c', o) ->
  match o with
  | Ok r =>
      present r = true /\ source_url r = url /\
      exists blob,
        url_to_blob_path lib url = Return blob /\
        storage_url r = ("gs://" ++ _bucket_name settings ++ "/" ++ blob)%string /\
        is_Some (blobs c' !! cache_key settings blob) /\
        (is_Some (blobs c !! cache_key settings blob) /\ c' = c
         \/ blobs c !! cache_key settings blob = None /\
            requests c' = requests c ++ [_to_archive_url url] /\
            exists data,
              http_get sv (_to_archive_url url) = Ok data /\
              blobs c' = <[cache_key settings blob := (data, "application/pdf"%string)]>
                           (blobs c))
  | Fail _ => blobs c' = blobs c
  end.
Proof.
  unfold ensure_in_cache, check_cache, cache_key. run_io.
  destruct (url_to_blob_path lib url) as [blob|x]; [|intros [= <- <-]; reflexivity].
  destruct (storage_fault sv NewClient) as [e|]; [intros [= <- <-]; reflexivity|].
  destruct (storage_fault sv (GetBucket _)) as [e|]; [intros [= <- <-]; reflexivity|].
  destruct (storage_fault sv (BlobExists _ _)) as [e|]; [intros [= <- <-]; reflexivity|].
  cbn [present storage_url].
  destruct (bool_decide (is_Some (blobs c !! (_bucket_name settings, blob)))) eqn:Ep.
  - intros [= <- <-]. apply bool_decide_eq_true in Ep. cbn.
    split; [reflexivity|]. split; [reflexivity|].
    exists blob. repeat split; auto.
  - apply bool_decide_eq_false in Ep.
    destruct (http_get sv (_to_archive_url url)) as [data|e] eqn:Eg;
      [|intros [= <- <-]; reflexivity].
    cbn [blobs requests].
    destruct (storage_fault sv (UploadFromString _ _)) as [e|];
      [intros [= <- <-]; reflexivity|].
    intros [= <- <-]. cbn.
    split; [reflexivity|]. split; [reflexivity|].
    exists blob. split; [reflexivity|]. split; [reflexivity|]. split.
    + rewrite lookup_insert_eq. eauto.
    + right. split; [apply eq_None_not_Some, Ep|]. split; [reflexivity|].
      exists data. split; [reflexivity | reflexivity].
Qed.

(** What [fetch_pdf] does once the URL is valid and a bucket is set. *)
Lemma fetch_pdf_store lib sv url settings c c' data :
  storage_bucket settings <> EmptyString ->
  fetch_pdf lib sv url settings c = (c', Ok data) ->
  exists blob content_type,
    url_to_blob_path lib url = Return blob /\
    blobs c' !! cache_key settings blob = Some (data, content_type).
Proof.
  intros Hb. unfold fetch_pdf, cache_key. run_io.
  destruct (validate_url lib url None) as [[]|x]; [|discriminate].
  destruct (storage_bucket settings) as [|a b] eqn:Eb; [congruence|].
  cbn [SpanExtractor.str_bool negb].
  destruct (url_to_blob_path lib url) as [blob|x]; [|discriminate].
  destruct (storage_fault sv NewClient) as [e|]; [discriminate|].
  destruct (storage_fault sv (GetBucket _)) as [e|]; [discriminate|].
  destruct (storage_fault sv (BlobExists _ _)) as [e|]; [discriminate|].
  destruct (bool_decide (is_Some (blobs c !! (_bucket_name settings, blob)))) eqn:Ep.
  - destruct (storage_fault sv (DownloadAsBytes _ _)) as [e|]; [discriminate|].
    destruct (blobs c !! (_bucket_name settings, blob)) as [[d ct]|] eqn:El;
      [|discriminate].
    intros [= <- <-]. exists blob, ct. split; [reflexivity | exact El].
  - destruct (http_get sv (_to_archive_url url)) as [d|e]; [|discriminate].
    cbn [blobs requests].
    destruct (storage_fault sv (UploadFromString _ _)) as [e|]; [discriminate|].
    intros [= <- <-]. exists blob, "application/pdf"%string.
    split; [reflexivity|]. cbn [blobs]. apply lookup_insert_eq.
Qed.

Lemma fetch_pdf_hit lib sv url settings c blob data content_type :
  storage_bucket settings <> EmptyString ->
  url_to_blob_path lib url = Return blob ->
  (forall call, storage_fault sv call = None) ->
  blobs c !! cache_key settings blob = Some (data, content_type) ->
  fetch_pdf lib sv url settings c = (c, Ok data).
Proof.
  intros Hb Hp Hs Hl. unfold fetch_pdf. run_io.
  rewrite (url_to_blob_path_validates lib url blob Hp).
  destruct (storage_bucket settings) as [|a b] eqn:Eb; [congruence|].
  cbn [SpanExtractor.str_bool negb]. rewrite Hp, !Hs.
  unfold cache_key in Hl. rewrite Hl.
  rewrite bool_decide_eq_true_2 by eauto. cbv beta. rewrite ?Hl. reflexivity.
Qed.

(** X27. With a bucket configured, whatever [fetch_pdf] returned is served
    from storage afterwards: a later [fetch_pdf] of the same URL, or of
    any URL with the same object path (another scheme, another spelling
    of the path), returns the same bytes without an HTTP request and
    without changing anything, however the sites answer by then, as long
    as the storage calls succeed. *)
Theorem fetch_pdf_served_from_cache lib sv sv' url url' settings c c' data blob :
  storage_bucket settings <> EmptyString ->
  fetch_pdf lib sv url settings c = (c', Ok data) ->
  url_to_blob_path lib url = Return blob ->
  url_to_blob_path lib url' = Return blob ->
  (forall call, storage_fault sv' call = None) ->
  fetch_pdf lib sv' url' settings c' = (c', Ok data).
Proof.
  intros Hb Hf Hp Hp' Hs.
  destruct (fetch_pdf_store lib sv url settings c c' data Hb Hf)
    as (blob' & ct & Hp2 & Hl).
  assert (blob' = blob) as -> by congruence.
  exact (fetch_pdf_hit lib sv' url' settings c' blob data ct Hb Hp' Hs Hl).
Qed.


End CacheProtocol.

(** ** api.py: the by-URL endpoints *)

Section ByUrl.
Import Cache Api.

Lemma validate_url_raises lib url allowed e :
  validate_url lib url allowed = Raise e ->
  urlparse lib url = Raise e \/ exists msg, e = ValueError msg.
Proof.
  unfold validate_url. destruct (urlparse lib url) as [parsed|x].
  2:{ intros [= ->]. left. reflexivity. }
  cbn [mbind result_bind rbind]. intros H. right.
  destruct (negb _); [injection H as <-; eauto|].
  destruct (hostname parsed) as [[|a host]|]; try (injection H as <-; eauto; fail).
  destruct (_ || _); [injection H as <-; eauto|].
  destruct allowed as [domains|]; [|discriminate].
  destruct (negb _); [injection H as <-; eauto | discriminate].
Qed.

(** X29. Both by-URL endpoints refuse a URL whose host is neither a
    listed domain nor a name below one: they raise HTTP 400 with the
    validator's message, and do so before anything else happens: no HTTP
    request, no change to storage, no document opened. *)
Theorem by_url_refuses_unlisted_hosts
        lib sv parse settings request c w parsed host :
  urlparse lib (url request) = Return parsed ->
  hostname parsed = Some host ->
  (forall domain, domain ∈ allowed_domains settings ->
                  ~ under_domain (str_lower host) domain) ->
  exists detail,
    validate_url lib (url request) (Some (allowed_domains settings))
    = Raise (ValueError detail) /\
    find_redactions_by_url lib sv parse (Some settings) request c w
    = (c, w, HTTPException 400 detail) /\
    analyse_fonts_by_url lib sv parse (Some settings) request c w
    = (c, w, HTTPException 400 detail).
Proof.
  intros Hp Hh Hout.
  destruct (validate_url lib (url request) (Some (allowed_domains settings)))
    as [[]|e] eqn:E.
  - exfalso. apply validate_url_allowed in E.
    destruct E as (parsed' & host' & Hp' & (_ & Hh' & _) & d & Hd & Hu).
    assert (parsed' = parsed) as -> by congruence.
    assert (host' = host) as -> by congruence.
    exact (Hout d Hd Hu).
  - destruct (validate_url_raises _ _ _ _ E) as [Hr | [msg ->]]; [congruence|].
    exists msg. split; [reflexivity|].
    unfold find_redactions_by_url, analyse_fonts_by_url. rewrite E. auto.
Qed.

End ByUrl.

(** *** Sample inputs for the cache and the by-URL endpoints *)

(** The text before the first [c], and the rest from [c] on. *)
Fixpoint split_before (c : ascii) (s : string) : string * string :=
  match s with
  | EmptyString => (EmptyString, EmptyString)
  | String a s' =>
      if Ascii.eqb a c then (EmptyString, s)
      else let '(before, rest) := split_before c s' in (String a before, rest)
  end.

(** How [urlparse] reads a plain URL, scheme://host/path without user,
    port, query or fragment. *)
Definition plain_urlparse (url : string) : result Cache.ParseResult :=
  let '(scheme, rest) := split_before ":" url in
  if starts_with "://" rest then
    let '(host, path) := split_before "/" (Cache.str_drop 3 rest) in
    Return {| Cache.scheme := str_lower scheme;
              Cache.hostname :=
                if SpanExtractor.str_bool host then Some (str_lower host) else None;
              Cache.path := path |}
  else
    Return {| Cache.scheme := EmptyString; Cache.hostname := None;
              Cache.path := url |}.

(** [unquote] leaves a text without percent signs as it is. *)
Definition plain_urllib : Cache.Urllib :=
  {| Cache.urlparse := plain_urlparse; Cache.unquote := fun s => s |}.

Definition sample_url : string := "https://www.justice.gov/files/doc.pdf".

Definition sample_pdf_bytes : bytes := [Byte.x25; Byte.x50; Byte.x44; Byte.x46].

(** The archive has the sample document and nothing else; storage works. *)
Definition archive_online : Cache.Services :=
  {| Cache.http_get := fun u =>
       if String.eqb u (Cache._to_archive_url sample_url)
       then Cache.Ok sample_pdf_bytes
       else Cache.Fail (Cache.HTTPStatusError 404);
     Cache.storage_fault := fun _ => None |}.

(** No site answers; storage works. *)
Definition archive_offline : Cache.Services :=
  {| Cache.http_get := fun _ => Cache.Fail (Cache.RequestError "connection refused");
     Cache.storage_fault := fun _ => None |}.

Definition bucket_settings : Cache.Settings :=
  {| Cache.storage_bucket := "gs://unredact-cache/";
     Cache.allowed_domains := Cache.allowed_domains Cache.Settings_default |}.

Definition empty_cloud : Cache.Cloud :=
  {| Cache.blobs := ∅; Cache.requests := [] |}.

(** Storage and request log after the sample document was fetched once. *)
Definition cached_cloud : Cache.Cloud :=
  {| Cache.blobs :=
       {[ ("unredact-cache", "www.justice.gov/files/doc.pdf")%string
          := (sample_pdf_bytes, "application/pdf"%string) ]};
     Cache.requests := [ Cache._to_archive_url sample_url ] |}.

Example fetch_pdf_sample :
  Cache.fetch_pdf plain_urllib archive_online sample_url bucket_settings empty_cloud
  = (cached_cloud, Cache.Ok sample_pdf_bytes).
Proof. vm_compute. reflexivity. Qed.

Lemma bucket_name_normal_form_witness :
  Cache._bucket_name {| Cache.storage_bucket := "gs://unredact-cache//";
                        Cache.allowed_domains := [] |} = "unredact-cache"%string
  /\ Cache._bucket_name {| Cache.storage_bucket := "unredact-cache//";
                           Cache.allowed_domains := [] |} = "unredact-cache"%string.
Proof.
  destruct (bucket_name_normal_form "unredact-cache" 2 []
              (rstrip_char_no_trailing "unredact-cache")) as (_ & H1 & H2).
  split; [exact H1 | exact (H2 eq_refl)].
Defined.

Lemma validate_url_accepts_witness :
  Cache.validate_url plain_urllib sample_url None = Return tt.
Proof.
  apply (proj2 (validate_url_accepts plain_urllib sample_url
                  (Cache.allowed_domains Cache.Settings_default))).
  vm_compute. reflexivity.
Defined.

Lemma check_cache_only_looks_witness :
  cached_cloud = cached_cloud /\
  Cache.source_url
    {| Cache.source_url := sample_url;
       Cache.storage_url := "gs://unredact-cache/www.justice.gov/files/doc.pdf";
       Cache.present := true |} = sample_url /\
  exists blob,
    Cache.url_to_blob_path plain_urllib sample_url = Return blob /\
    "gs://unredact-cache/www.justice.gov/files/doc.pdf"%string
    = ("gs://" ++ Cache._bucket_name bucket_settings ++ "/" ++ blob)%string /\
    true = bool_decide (is_Some (Cache.blobs cached_cloud
                                   !! cache_key bucket_settings blob)).
Proof.
  apply (check_cache_only_looks plain_urllib archive_offline sample_url
           bucket_settings cached_cloud cached_cloud
           (Cache.Ok {| Cache.source_url := sample_url;
                        Cache.storage_url :=
                          "gs://unredact-cache/www.justice.gov/files/doc.pdf";
                        Cache.present := true |})).
  vm_compute. reflexivity.
Defined.

Lemma ensure_in_cache_outcome_witness :
  exists r,
    Cache.ensure_in_cache plain_urllib archive_online sample_url bucket_settings
                          empty_cloud = (cached_cloud, Cache.Ok r) /\
    Cache.present r = true /\
    is_Some (Cache.blobs cached_cloud
               !! cache_key bucket_settings "www.justice.gov/files/doc.pdf").
Proof.
  assert (E : Cache.ensure_in_cache plain_urllib archive_online sample_url
                bucket_settings empty_cloud
              = (cached_cloud,
                 Cache.Ok {| Cache.source_url := sample_url;
                             Cache.storage_url :=
                               "gs://unredact-cache/www.justice.gov/files/doc.pdf";
                             Cache.present := true |}))
    by (vm_compute; reflexivity).
  eexists. split; [exact E|].
  destruct (ensure_in_cache_outcome _ _ _ _ _ _ _ E)
    as (Hp & _ & blob & Hb & _ & Hs & _).
  split; [exact Hp|].
  assert (blob = "www.justice.gov/files/doc.pdf"%string) as <-; [|exact Hs].
  vm_compute in Hb. congruence.
Defined.

Lemma fetch_pdf_served_from_cache_witness :
  Cache.fetch_pdf plain_urllib archive_offline
                  "http://www.justice.gov//files/doc.pdf" bucket_settings
                  cached_cloud
  = (cached_cloud, Cache.Ok sample_pdf_bytes).
Proof.
  apply (fetch_pdf_served_from_cache plain_urllib archive_online archive_offline
           sample_url "http://www.justice.gov//files/doc.pdf" bucket_settings
           empty_cloud cached_cloud sample_pdf_bytes
           "www.justice.gov/files/doc.pdf").
  - discriminate.
  - vm_compute. reflexivity.
  - vm_compute. reflexivity.
  - vm_compute. reflexivity.
  - reflexivity.
Defined.


Lemma by_url_refuses_unlisted_hosts_witness :
  exists detail,
    Cache.validate_url plain_urllib "https://evil-justice.gov/files/doc.pdf"
      (Some (Cache.allowed_domains Cache.Settings_default))
    = Raise (ValueError detail) /\
    Api.find_redactions_by_url plain_urllib archive_online two_page_pdf
      (Some Cache.Settings_default)
      {| Api.url := "https://evil-justice.gov/files/doc.pdf" |}
      empty_cloud no_handles
    = (empty_cloud, no_handles, Api.HTTPException 400 detail) /\
    Api.analyse_fonts_by_url plain_urllib archive_online two_page_pdf
      (Some Cache.Settings_default)
      {| Api.url := "https://evil-justice.gov/files/doc.pdf" |}
      empty_cloud no_handles
    = (empty_cloud, no_handles, Api.HTTPException 400 detail).
Proof.
  apply (by_url_refuses_unlisted_hosts plain_urllib archive_online two_page_pdf
           Cache.Settings_default
           {| Api.url := "https://evil-justice.gov/files/doc.pdf" |}
           empty_cloud no_handles
           {| Cache.scheme := "https"; Cache.hostname := Some "evil-justice.gov"%string;
              Cache.path := "/files/doc.pdf" |} "evil-justice.gov").
  - vm_compute. reflexivity.
  - reflexivity.
  - intros domain Hd Hu. apply domain_matches_spec in Hu.
    apply list_elem_of_In in Hd.
    destruct Hd as [<-|[<-|[]]]; vm_compute in Hu; discriminate.
Defined.

Example find_redactions_by_url_sample :
  Api.find_redactions_by_url plain_urllib archive_online two_page_pdf
    (Some bucket_settings) {| Api.url := sample_url |} empty_cloud no_handles
  = (cached_cloud,
     {| next_handle := 1; open_handles := ∅ |},
     Api.Respond
       {| Api.rr_url := sample_url;
          Api.rr_redactions :=
            map Api.redaction_box_result
                [ Redactions.box_of_rect 0 (mkRect 50 100 150 115);
                  Redactions.box_of_rect 0 (mkRect 50 200 150 215);
                  Redactions.box_of_rect 1 (mkRect 50 100 150 115);
                  Redactions.box_of_rect 1 (mkRect 50 200 150 215) ] |}).
Proof. vm_compute. reflexivity. Qed.
